(** * Draupnir: image store, OAuth correlation, authentication middleware,
      instance provisioning and client-side image selection

    A shallow embedding of the parts of draupnir that its specification
    makes claims about, with the claims stated and proved over it.

    Conventions used throughout.
    - A Go [int] or [time.Time] is a [Z] (an instant is a number of
      nanoseconds); a Go [string] is a [string]; a Go [error] is its message.
    - A Go function returning [(T, error)] returns a pair [T * option error],
      [None] being [nil]; both components are always produced, as in Go.
    - The SQL engine is modelled over a healthy connection: a query, an
      INSERT or an UPDATE is a function on the table.  A DELETE the database
      may refuse, as other tables refer to the rows of this one; what it
      answers is an input of the call.  Driver failures are outside the
      model.
    - HTTP handlers write to the response and the log, and call injected
      collaborators; each such effect is an event of the handler's trace. *)

From Stdlib Require Import ZArith Bool Lia Permutation Sorted.
From stdpp Require Import gmap strings list pretty.

Local Open Scope string_scope.
Local Open Scope list_scope.
Local Open Scope Z_scope.

(** ** Shared Go-level notions *)

(** Go's [error] interface, identified with the text [Error()] returns. *)
Inductive error : Type :=
| ErrorString (msg : string).

Definition Error (e : error) : string :=
  match e with ErrorString msg => msg end.

#[global] Instance error_eq_dec : EqDecision error.
Proof. solve_decision. Defined.

(** [time.Time], as nanoseconds since the epoch. *)
Definition Time : Type := Z.

(** [t.After(u)] *)
Definition After (t u : Time) : bool := u <? t.

(** ** pkg/models *)

Module models.

(** Modelled from the spec: [models.Image] is declared in a file that is not
    part of the sources; its fields are those of the data model, which are
    the ones the store and the client read and write. *)
Record Image : Type := mkImage {
  ID : Z;
  BackedUpAt : Time;
  Ready : bool;
  Anon : string;
  CreatedAt : Time;
  UpdatedAt : Time
}.

(** The zero value [models.Image{}] (also the value of [var image models.Image]). *)
Definition zero : Image :=
  {| ID := 0; BackedUpAt := 0; Ready := false; Anon := "";
     CreatedAt := 0; UpdatedAt := 0 |}.

End models.

(** ** pkg/store: DBImageStore *)

Module store.
Import models.

(** One row of table [images].  The columns are the ones the statements of
    the store name. *)
Record Row : Type := mkRow {
  id : Z;
  backed_up_at : Time;
  ready : bool;
  anon : string;
  created_at : Time;
  updated_at : Time
}.

(** Modelled from the spec: the schema of table [images] is not part of the
    sources; the store contract gives [id] as assigned on insertion, unique
    and ascending, so the database carries the sequence that assigns it.
    The table keeps its rows in insertion order. *)
Record DB : Type := mkDB {
  images : list Row;
  images_id_seq : Z
}.

(** [database/sql]'s [sql.ErrNoRows], returned by [Row.Scan] when the query
    produced no row. *)
Definition ErrNoRows : error := ErrorString "sql: no rows in result set".

(** The five columns every statement but [Get] selects or returns:
    [id, backed_up_at, ready, created_at, updated_at]. *)
Definition Cols5 : Type := (Z * Time * bool * Time * Time)%type.

Definition cols5 (r : Row) : Cols5 :=
  (id r, backed_up_at r, ready r, created_at r, updated_at r).

(** [Scan(&image.ID, &image.BackedUpAt, &image.Ready, &image.CreatedAt,
    &image.UpdatedAt)]: the five destinations are overwritten, [image.Anon]
    is not a destination and keeps its value. *)
Definition Scan5 (c : Cols5) (image : Image) : Image :=
  let '(i, b, r, ca, ua) := c in
  {| ID := i; BackedUpAt := b; Ready := r; Anon := Anon image;
     CreatedAt := ca; UpdatedAt := ua |}.

(** [Scan] with the six destinations of [Get], [image.Anon] included. *)
Definition Scan6 (r : Row) (image : Image) : Image :=
  {| ID := id r; BackedUpAt := backed_up_at r; Ready := ready r;
     Anon := anon r; CreatedAt := created_at r; UpdatedAt := updated_at r |}.

(** [ORDER BY id ASC], as a stable insertion sort on the [id] column. *)
Fixpoint insert_by_id (r : Row) (rs : list Row) : list Row :=
  match rs with
  | [] => [r]
  | r' :: rs' =>
      if id r <? id r' then r :: r' :: rs' else r' :: insert_by_id r rs'
  end.

Fixpoint order_by_id (rs : list Row) : list Row :=
  match rs with
  | [] => []
  | r :: rs' => insert_by_id r (order_by_id rs')
  end.

(** [WHERE id = $1] *)
Definition where_id (i : Z) (r : Row) : bool := id r =? i.

(** [WHERE id = $1 AND ready = $2] *)
Definition where_id_ready (i : Z) (rdy : bool) (r : Row) : bool :=
  (id r =? i) && eqb (ready r) rdy.

(** [SET ready = TRUE, updated_at = now()] *)
Definition set_ready (now : Time) (r : Row) : Row :=
  {| id := id r; backed_up_at := backed_up_at r; ready := true;
     anon := anon r; created_at := created_at r; updated_at := now |}.

(** [UPDATE images SET ... WHERE id = $1 AND ready = $2]: every row the
    condition selects is rewritten in place, the others are kept. *)
Definition update_ready (now : Time) (i : Z) (rdy : bool) (rs : list Row)
  : list Row :=
  map (fun r => if where_id_ready i rdy r then set_ready now r else r) rs.

(** [... RETURNING ...]: the rows the update has rewritten, as rewritten. *)
Definition update_returning (now : Time) (i : Z) (rdy : bool) (rs : list Row)
  : list Row :=
  map (set_ready now) (List.filter (where_id_ready i rdy) rs).

(** The loop of [List]: [image] is declared once, before the loop, and each
    iteration scans into it and appends a copy. *)
Fixpoint List_loop (rows : list Cols5) (image : Image) (images : list Image)
  : list Image :=
  match rows with
  | [] => images
  | c :: rows' =>
      let image := Scan5 c image in
      List_loop rows' image (images ++ [image])
  end.

(** [func (s DBImageStore) List() ([]models.Image, error)] *)
Definition List (s : DB) : list Image * option error :=
  let images0 : list Image := [] in
  let rows := map cols5 (order_by_id (images s)) in
  let image := models.zero in
  (List_loop rows image images0, None).

(** [func (s DBImageStore) Get(id int) (models.Image, error)] *)
Definition Get (s : DB) (i : Z) : Image * option error :=
  let image := models.zero in
  match List.filter (where_id i) (images s) with
  | [] => (image, Some ErrNoRows)
  | r :: _ => (Scan6 r image, None)
  end.

(** [func (s DBImageStore) Create(image models.Image) (models.Image, error)]:
    the statement inserts the five values it is given, [image.Ready] among
    them, and the database assigns [id]. *)
Definition Create (s : DB) (image : Image) : DB * (Image * option error) :=
  let r := {| id := images_id_seq s;
              backed_up_at := BackedUpAt image;
              ready := Ready image;
              anon := Anon image;
              created_at := CreatedAt image;
              updated_at := UpdatedAt image |} in
  ({| images := images s ++ [r]; images_id_seq := images_id_seq s + 1 |},
   (Scan5 (cols5 r) image, None)).

(** [func (s DBImageStore) MarkAsReady(image models.Image) (models.Image, error)];
    [now] is the value of SQL's [now()] for the statement. *)
Definition MarkAsReady (s : DB) (now : Time) (image : Image)
  : DB * (Image * option error) :=
  let s' := {| images := update_ready now (ID image) (Ready image) (images s);
               images_id_seq := images_id_seq s |} in
  match update_returning now (ID image) (Ready image) (images s) with
  | [] => (s', (image, Some ErrNoRows))
  | r :: _ => (s', (Scan5 (cols5 r) image, None))
  end.

(** [DB.Exec("DELETE FROM images WHERE id = $1", i)]: the statement is
    executed as a whole or not at all.  [refused] is the answer of the
    database when it does not execute it, and the table is then left as it
    is.  The schema is not part of the sources; by the store contract table
    [instances] refers to the rows of [images], which is a reason a
    database has to refuse. *)
Definition Exec_delete (s : DB) (refused : option error) (i : Z)
  : DB * option error :=
  match refused with
  | Some err => (s, Some err)
  | None =>
      ({| images := List.filter (fun r => negb (where_id i r)) (images s);
          images_id_seq := images_id_seq s |}, None)
  end.

(** [func (s DBImageStore) Destroy(image models.Image) error]: the error of
    [Exec] is returned as it is. *)
Definition Destroy (s : DB) (refused : option error) (image : Image)
  : DB * option error :=
  let '(s', err) := Exec_delete s refused (ID image) in
  (s', err).

(** A sequence of [MarkAsReady] calls, each with its own clock reading. *)
Fixpoint MarkAsReady_all (s : DB) (calls : list (Time * Image)) : DB :=
  match calls with
  | [] => s
  | (now, image) :: calls' => MarkAsReady_all (fst (MarkAsReady s now image)) calls'
  end.

(** The row an image addresses: same id, and the [ready] value the caller
    last observed. *)
Definition addressed (image : Image) (r : Row) : Prop :=
  id r = ID image /\ ready r = Ready image.

(** A row and its later state: same row, and [ready] is not taken back. *)
Definition stays_ready (r r' : Row) : Prop :=
  id r' = id r /\ (ready r = true -> ready r' = true).

(** What a listing shows of a row, and the full record of a row. *)
Definition listed (r : Row) : Image := Scan5 (cols5 r) models.zero.
Definition full (r : Row) : Image := Scan6 r models.zero.

(** [id] is a key of the table and the sequence is ahead of it: no two rows
    share an id, and every id in use is below the next one to be assigned. *)
Definition keyed (s : DB) : Prop :=
  List.NoDup (map id (images s))
  /\ Forall (fun r => id r < images_id_seq s) (images s).

(** A call that writes to the store. *)
Inductive Call : Type :=
| CallCreate (image : Image)
| CallMarkAsReady (now : Time) (image : Image)
| CallDestroy (refused : option error) (image : Image).

(** The database after a call, and after a sequence of calls. *)
Definition after_call (s : DB) (c : Call) : DB :=
  match c with
  | CallCreate image => fst (Create s image)
  | CallMarkAsReady now image => fst (MarkAsReady s now image)
  | CallDestroy refused image => fst (Destroy s refused image)
  end.

Definition after_calls (s : DB) (cs : list Call) : DB :=
  fold_left after_call cs s.

(** What [MarkAsReady] leaves of a row whatever it does to it: everything
    but [ready] and [updated_at]. *)
Definition kept_columns (r : Row) : Z * Time * string * Time :=
  (id r, backed_up_at r, anon r, created_at r).

End store.

(** ** net/http requests, responses and logs, as handlers see them *)

Module http.

(** [time.Duration]: a number of nanoseconds. *)
Definition Duration : Type := Z.
Definition Second : Duration := 1000000000.
Definition Minute : Duration := 60 * Second.

Definition StatusFound : Z := 302.
Definition StatusCreated : Z := 201.
Definition StatusBadRequest : Z := 400.
Definition StatusUnauthorized : Z := 401.
Definition StatusInternalServerError : Z := 500.

(** A structured logger: the key-value pairs attached to it by [With]. *)
Definition Logger : Type := list (string * string).

Definition With (logger : Logger) (k v : string) : Logger := logger ++ [(k, v)].

(** A value of type [interface{}] held by a request context; the constructor
    is its dynamic type. *)
Inductive any : Type :=
| AnyString (s : string)
| AnyLogger (l : Logger)
| AnyInt (n : Z).

(** [context.Context]: the chain of [WithValue] pairs, innermost first. *)
Definition Context : Type := list (Z * any).

Definition WithValue (ctx : Context) (key : Z) (val : any) : Context :=
  (key, val) :: ctx.

(** [ctx.Value(key)]: the innermost value stored under [key], or nil. *)
Fixpoint Value (ctx : Context) (key : Z) : option any :=
  match ctx with
  | [] => None
  | (k, v) :: ctx' => if k =? key then Some v else Value ctx' key
  end.

(** [*http.Request]: its context, its parsed form and its body. *)
Record Request : Type := mkRequest {
  Ctx : Context;
  Form : gmap string (list string);
  Body : string
}.

(** [r.WithContext(ctx)] *)
Definition WithContext (r : Request) (ctx : Context) : Request :=
  {| Ctx := ctx; Form := Form r; Body := Body r |}.

(** [r.Form.Get(key)]: the first value of [key], or the empty string. *)
Definition FormGet (r : Request) (key : string) : string :=
  match Form r !! key with
  | Some (v :: _) => v
  | _ => ""
  end.

(** [oauth2.Token] *)
Record Token : Type := mkToken {
  AccessToken : string;
  TokenType : string;
  RefreshToken : string;
  Expiry : Time
}.

Definition Token_zero : Token :=
  {| AccessToken := ""; TokenType := ""; RefreshToken := ""; Expiry := 0 |}.

Record ErrorSource : Type := mkErrorSource {
  SourcePointer : string;
  SourceParameter : string
}.

Record APIError : Type := mkAPIError {
  ID : string;
  Status : string;
  Code : string;
  Title : string;
  Detail : string;
  Source : ErrorSource
}.

(** What [json.NewEncoder(w).Encode(v)] is given to write. *)
Inductive Encoded : Type :=
| EncodeAPIError (e : APIError)
| EncodeToken (t : Token).

(** What travels on a callback channel. *)
Record OAuthCallback : Type := mkOAuthCallback {
  CallbackToken : Token;
  CallbackError : option error
}.

(** A channel made by [make(chan OAuthCallback)], by its allocation; a nil
    channel is no channel at all. *)
Definition chan : Type := positive.

Inductive Level : Type := Info | LevelError.

(** The effects of a handler, in the order it performs them.  The effects of
    the next handler of a chain stay under the call that ran it. *)
#[local] Unset Elimination Schemes.
Inductive Event : Type :=
| Log (level : Level) (logger : Logger) (msg : string)
| HeaderAdd (key val : string)
| HeaderSet (key val : string)
| WriteHeader (status : Z)
| Encode (v : Encoded)
| Write (bytes : string)
| CallAuthenticateRequest (r : Request) (email : string) (err : option error)
| CallNext (r : Request) (inner : list Event) (err : option error)
| CallExchange (code : string) (timeout : Duration)
| Send (c : chan) (v : OAuthCallback)     (* the send [c <- v] is reached *)
| Blocked (elapsed : Duration).           (* a select has waited this long *)
#[local] Set Elimination Schemes.

(** A computation that performs effects and returns: the trace and the value. *)
Definition Eff (A : Type) : Type := list Event * A.

#[global] Instance Eff_ret : MRet Eff := fun A (a : A) => ([], a).

#[global] Instance Eff_bind : MBind Eff := fun A B (k : A -> Eff B) (m : Eff A) =>
  let '(t1, a) := m in
  let '(t2, b) := k a in
  (t1 ++ t2, b).

Definition emit (e : Event) : Eff unit := ([e], tt).

Definition trace {A} (m : Eff A) : list Event := fst m.
Definition value {A} (m : Eff A) : A := snd m.

(** [chain.Handler]: [func(w http.ResponseWriter, r *http.Request) error];
    the writes to [w] are among the effects. *)
Definition Handler : Type := Request -> Eff (option error).

(** [chain.Middleware] *)
Definition Middleware : Type := Handler -> Handler.

(** What becomes of a goroutine that runs a handler with a channel send in
    it: the handler returns, or it stays blocked in the send. *)
Inductive Outcome : Type :=
| Returned (err : option error)
| StaysBlocked.

(** [RenderError(w, statuscode, err)] *)
Definition RenderError (statuscode : Z) (err : APIError) : Eff unit :=
  emit (WriteHeader statuscode);;
  emit (Encode (EncodeAPIError err)).

(** [next(w, r)]: the call, with what the next handler did and returned. *)
Definition call (next : Handler) (r : Request) : Eff (option error) :=
  let '(inner, err) := next r in
  emit (CallNext r inner err);;
  mret err.

End http.

(** ** server/api/middleware: authentication *)

Module middleware.
Import http.

(** [const AuthUserKey key = 2] *)
Definition AuthUserKey : Z := 2.

(** [auth.Authenticator]: [AuthenticateRequest(r) (string, error)]. *)
Definition Authenticator : Type := Request -> string * option error.

(** [authenticator.AuthenticateRequest(r)], as a call the trace records. *)
Definition AuthenticateRequest (authenticator : Authenticator) (r : Request)
  : Eff (string * option error) :=
  let '(email, err) := authenticator r in
  emit (CallAuthenticateRequest r email err);;
  mret (email, err).

Section Authenticate.

(** [GetLogger] and [api.UnauthorizedError] are declared in files that are
    not part of the sources; the middleware is read for any of them. *)
Variable GetLogger : Request -> Logger * option error.
Variable UnauthorizedError : APIError.

(** [func Authenticate(authenticator auth.Authenticator) chain.Middleware] *)
Definition Authenticate (authenticator : Authenticator) : Middleware :=
  fun (next : Handler) (r : Request) =>
    let '(logger, err) := GetLogger r in
    match err with
    | Some err => mret (Some err)
    | None =>
        '(email, err) ← AuthenticateRequest authenticator r;
        match err with
        | Some err =>
            emit (Log Info logger (Error err));;
            RenderError StatusUnauthorized UnauthorizedError;;
            mret None
        | None =>
            let r := WithContext r (WithValue (Ctx r) AuthUserKey (AnyString email)) in
            call next r
        end
    end.

End Authenticate.

(** [func GetAuthenticatedUser(r *http.Request) (string, error)]: the type
    assertion [.(string)] holds for a string value only. *)
Definition GetAuthenticatedUser (r : Request) : string * option error :=
  match Value (Ctx r) AuthUserKey with
  | Some (AnyString user) => (user, None)
  | _ => ("", Some (ErrorString "Could not acquire authenticated user"))
  end.

(** A request has an identity attached when its context holds a string under
    [AuthUserKey]. *)
Definition has_identity (r : Request) : Prop :=
  exists user, Value (Ctx r) AuthUserKey = Some (AnyString user).

(** An [Unauthorized] response: status 401 and the encoded error, and
    nothing else written. *)
Definition renders_unauthorized (UnauthorizedError : APIError) (t : list Event)
  : Prop :=
  List.filter (fun e => match e with Log _ _ _ | CallAuthenticateRequest _ _ _ => false
                              | _ => true end) t
  = [WriteHeader StatusUnauthorized; Encode (EncodeAPIError UnauthorizedError)].

(** The next handler was called, at the top of this trace. *)
Definition invokes_next (t : list Event) : Prop :=
  exists r inner err, In (CallNext r inner err) t.

End middleware.

(** ** routes: the access-token handlers *)

Module routes.
Import http.

Definition TOKEN_EXCHANGE_TIMEOUT : Duration := Second * 5.
Definition OAUTH_CALLBACK_TIMEOUT : Duration := Minute.

(** [OAuthClient]: [Exchange] returns a token or an error. *)
Record OAuthClient : Type := mkOAuthClient {
  AuthCodeURL : string -> string;
  Exchange : string -> Token + error
}.

(** [AccessTokens]; [Callbacks] is a Go map, shared by every request. *)
Record AccessTokens : Type := mkAccessTokens {
  Callbacks : gmap string chan;
  Client : OAuthClient
}.

Record createAccessTokenRequest : Type := mkCreateAccessTokenRequest {
  State : string
}.

(** [errors.Wrap(err, message)] of github.com/pkg/errors. *)
Definition Wrap (err : error) (message : string) : error :=
  ErrorString (message +:+ ": " +:+ Error err).

(** What a [select] over a receive and a timer comes back with. *)
Inductive Selected : Type :=
| Received (c : OAuthCallback)
| TimerFired.

(** [select { case c := <-callbackChan: ... case <-time.After(timeout): ... }]
    [sender] tells whether a goroutine sends on the channel, how long after
    the select began, and what; the select returns with whichever case is
    ready first, and [tie] is its choice when both are ready at once.
    The result is the time spent blocked and the case taken. *)
Definition select_or_timeout (sender : option (Duration * OAuthCallback))
    (tie : bool) (timeout : Duration) : Duration * Selected :=
  match sender with
  | Some (t, c) =>
      if (t <? timeout) || ((t =? timeout) && tie)
      then (Z.max 0 t, Received c)
      else (timeout, TimerFired)
  | None => (timeout, TimerFired)
  end.

(** What the rest of the system does to one blocked [Create]: the channel
    [make] returns; what other requests do to the shared map while this one
    is blocked; who sends on which channel, when and what; the tie-break of
    the select; whether writing the response fails. *)
Record World : Type := mkWorld {
  make_chan : chan;
  meanwhile : gmap string chan -> gmap string chan;
  senders : chan -> option (Duration * OAuthCallback);
  tie : bool;
  write_error : option error
}.

(** [func waitForCallback(callbackChan chan OAuthCallback) (oauth2.Token, error)] *)
Definition waitForCallback (w : World) (callbackChan : chan)
  : Eff (Token * option error) :=
  let '(elapsed, selected) :=
    select_or_timeout (senders w callbackChan) (tie w) OAUTH_CALLBACK_TIMEOUT in
  emit (Blocked elapsed);;
  match selected with
  | Received c =>
      match CallbackError c with
      | Some err => mret (Token_zero, Some err)
      | None => mret (CallbackToken c, None)
      end
  | TimerFired => mret (Token_zero, Some (ErrorString "Callback timed out"))
  end.

Section AccessTokens.

(** [GetLogger], [jsonapi.UnmarshalPayload] and the two API errors are
    declared outside the sources; the handlers are read for any of them. *)
Variable GetLogger : Request -> Logger * option error.
Variable UnmarshalPayload : string -> createAccessTokenRequest * option error.
Variable invalidJSONError : APIError.
Variable oauthError : APIError.

(** [func (a AccessTokens) Authenticate(w, r) error] *)
Definition Authenticate (a : AccessTokens) (r : Request)
  : Eff (gmap string chan * option error) :=
  let state := FormGet r "state" in
  let url := AuthCodeURL (Client a) state in
  emit (HeaderAdd "Location" url);;
  emit (WriteHeader StatusFound);;
  mret (Callbacks a, None).

(** [func (a AccessTokens) Create(w, r) error]; the result carries the
    contents of the shared map as the handler leaves them. *)
Definition Create (a : AccessTokens) (w : World) (r : Request)
  : Eff (gmap string chan * option error) :=
  let '(logger, err) := GetLogger r in
  match err with
  | Some err => mret (Callbacks a, Some err)
  | None =>
      let '(req, err) := UnmarshalPayload (Body r) in
      match err with
      | Some _ =>
          RenderError StatusBadRequest invalidJSONError;;
          mret (Callbacks a, None)
      | None =>
          let state := State req in
          let callback := make_chan w in
          let callbacks := <[state := callback]> (Callbacks a) in
          '(token, err) ← waitForCallback w callback;
          let callbacks := delete state (meanwhile w callbacks) in
          match err with
          | Some err =>
              emit (Log Info (With logger "error" (Error err)) "oauth request failed");;
              RenderError StatusBadRequest oauthError;;
              mret (callbacks, None)
          | None =>
              emit (WriteHeader StatusCreated);;
              emit (Encode (EncodeToken token));;
              match write_error w with
              | Some err =>
                  mret (callbacks, Some (Wrap err "failed to encode access token"))
              | None => mret (callbacks, None)
              end
          end
      end
  end.

(** [callback <- v] on the unbuffered channel: the send is reached, and what
    follows it runs once a goroutine has taken the value; while none
    receives on the channel the sender stays blocked in it. *)
Definition chan_send (receiving : chan -> bool) (callback : chan) (v : OAuthCallback)
    (callbacks : gmap string chan) (rest : Eff (gmap string chan * Outcome))
  : Eff (gmap string chan * Outcome) :=
  emit (Send callback v);;
  if receiving callback then rest else mret (callbacks, StaysBlocked).

(** [func (a AccessTokens) Callback(w, r) error].  [receiving] tells on which
    channels a goroutine receives when [Callback] sends: a [Create] that is
    still in its select does, one that has timed out or has been served by
    another [Callback] does not. *)
Definition Callback (a : AccessTokens) (receiving : chan -> bool) (r : Request)
  : Eff (gmap string chan * Outcome) :=
  let '(logger, err) := GetLogger r in
  match err with
  | Some err => mret (Callbacks a, Returned (Some err))
  | None =>
      let respError := FormGet r "error" in
      let respCode := FormGet r "code" in
      let state := FormGet r "state" in
      match Callbacks a !! state with
      | None =>
          emit (Log Info (With logger "state" state)
                    "cannot find oauth callback for state");;
          mret (Callbacks a, Returned None)
      | Some callback =>
          if negb (String.eqb respError "") then
            let err := ErrorString respError in
            chan_send receiving callback {| CallbackToken := Token_zero;
                                       CallbackError := Some err |} (Callbacks a)
              (mret (Callbacks a, Returned (Some err)))
          else if String.eqb respCode "" then
            let err := ErrorString "OAuth callback response code is empty" in
            chan_send receiving callback {| CallbackToken := Token_zero;
                                       CallbackError := Some err |} (Callbacks a)
              (emit (Log LevelError (With logger "state" state)
                         "empty oauth response code");;
               mret (Callbacks a, Returned (Some err)))
          else
            emit (CallExchange respCode TOKEN_EXCHANGE_TIMEOUT);;
            match Exchange (Client a) respCode with
            | inr err =>
                let err := Wrap err "token exchange error" in
                chan_send receiving callback {| CallbackToken := Token_zero;
                                           CallbackError := Some err |} (Callbacks a)
                  (mret (Callbacks a, Returned (Some err)))
            | inl token =>
                chan_send receiving callback {| CallbackToken := token;
                                           CallbackError := None |} (Callbacks a)
                  (emit (HeaderSet "Content-Type" "text/html");;
                   emit (Write "<h1>Success!</h1><h3>You can close this tab</h3><script>window.close()</script>");;
                   mret (Callbacks a, Returned None))
            end
      end
  end.

End AccessTokens.

(** The values a trace sends or is blocked sending, with their channels, in
    order. *)
Definition sends (t : list Event) : list (chan * OAuthCallback) :=
  omap (fun e => match e with Send c v => Some (c, v) | _ => None end) t.

(** The senders a blocked [Create] faces when what is sent is what the trace
    [t] sends, [after] the select began. *)
Definition senders_of (after : Duration) (t : list Event)
  : chan -> option (Duration * OAuthCallback) :=
  fun c =>
    match List.find (fun s => Pos.eqb (fst s) c) (sends t) with
    | Some (_, v) => Some (after, v)
    | None => None
    end.

(** The token a trace writes to the response, if it writes one. *)
Definition encoded_tokens (t : list Event) : list Token :=
  omap (fun e => match e with Encode (EncodeToken tok) => Some tok | _ => None end) t.

(** How long a trace stayed blocked. *)
Definition blocked (t : list Event) : list Duration :=
  omap (fun e => match e with Blocked d => Some d | _ => None end) t.

(** What a trace writes to the response: status and body. *)
Definition written (t : list Event) : list Event :=
  List.filter (fun e => match e with
                        | WriteHeader _ | Encode _ | Write _ => true
                        | _ => false
                        end) t.

(** The log entries of a trace. *)
Definition logged (t : list Event) : list (Level * Logger * string) :=
  omap (fun e => match e with Log l lg m => Some (l, lg, m) | _ => None end) t.

(** The page [OauthErrorRenderer] writes for an error: the format string of
    the source, line breaks and indentation included, with the error's text
    in place of [%s]. *)
Definition error_page (err : error) : string :=
  "<h1>Error</h1>
				 <h3>There was an error. Please try again</h3>
				 <pre>" +:+ Error err +:+ "</pre>".

(** A [chain.Handler] that may stay blocked in a send, as [a.Callback] may:
    what it does, and whether it returns. *)
Definition BlockingHandler : Type := Request -> Eff Outcome.

(** [func OauthErrorRenderer(next chain.Handler) chain.Handler]: what [next]
    does comes first; the renderer goes on when [next] has returned. *)
Definition OauthErrorRenderer (next : BlockingHandler) : BlockingHandler :=
  fun r =>
    out ← next r;
    match out with
    | Returned (Some e) =>
        emit (HeaderSet "Content-Type" "text/html");;
        emit (WriteHeader StatusInternalServerError);;
        emit (Write (error_page e));;
        mret out
    | Returned None => mret out
    | StaysBlocked => mret out
    end.

(** The method value [a.Callback] as a handler: what it does and whether it
    returns. *)
Definition Callback_handler (GetLogger : Request -> Logger * option error)
    (a : AccessTokens) (receiving : chan -> bool) : BlockingHandler :=
  fun r =>
    let '(t, (_, out)) := Callback GetLogger a receiving r in
    (t, out).

(** The page [Callback] writes once a token is delivered. *)
Definition success_page : string :=
  "<h1>Success!</h1><h3>You can close this tab</h3><script>window.close()</script>".

End routes.

(** ** pkg/client: the latest ready image *)

Module client.
Import models.

(** The comparison given to [sort.Slice]:
    [images[i].UpdatedAt.After(images[j].UpdatedAt)]. *)
Definition updated_after (a b : Image) : bool := After (UpdatedAt a) (UpdatedAt b).

(** [for _, image := range images { if image.Ready { return image, nil } }]
    followed by [return image, errors.New("no images available")], where the
    last [image] is the variable declared at the top of the function. *)
Fixpoint first_ready (images : list Image) (image : Image)
  : Image * option error :=
  match images with
  | [] => (image, Some (ErrorString "no images available"))
  | x :: images' => if Ready x then (x, None) else first_ready images' image
  end.

Section GetLatestImage.

(** [sort.Slice(x, less)] of the Go library: some sort by [less], not
    necessarily a stable one. *)
Variable sort_Slice : (Image -> Image -> bool) -> list Image -> list Image.

(** [func (c Client) GetLatestImage() (models.Image, error)], given what
    [c.ListImages()] returned; the first component is what it prints. *)
Definition GetLatestImage (ListImages : list Image * option error)
  : list string * (Image * option error) :=
  let image := models.zero in
  let '(images, err) := ListImages in
  match err with
  | Some err => (["error: " +:+ Error err +:+ "
"], (image, Some err))
  | None =>
      let images := sort_Slice updated_after images in
      ([], first_ready images image)
  end.

End GetLatestImage.

(** What [sort.Slice] promises for a comparison that is a strict weak
    order: the elements are kept, and none is less than one before it. *)
Definition strict_weak_order {A} (less : A -> A -> bool) : Prop :=
  (forall a, less a a = false)
  /\ (forall a b c, less a b = true -> less b c = true -> less a c = true)
  /\ (forall a b c, less a b = false -> less b c = false -> less a c = false).

Definition sorts {A} (sort : (A -> A -> bool) -> list A -> list A) : Prop :=
  forall less l,
    strict_weak_order less ->
    Permutation (sort less l) l
    /\ StronglySorted (fun a b => less b a = false) (sort less l).

(** One such sort: insertion sort, which [sort.Slice] runs on short slices. *)
Fixpoint insert_sorted {A} (less : A -> A -> bool) (x : A) (l : list A) : list A :=
  match l with
  | [] => [x]
  | y :: l' => if less x y then x :: y :: l' else y :: insert_sorted less x l'
  end.

Fixpoint insertion_sort {A} (less : A -> A -> bool) (l : list A) : list A :=
  match l with
  | [] => []
  | x :: l' => insert_sorted less x (insertion_sort less l')
  end.

End client.

(** ** The script that creates an instance

    The script runs under [set -e]: a simple command that fails ends the
    script with its status, unless it stands in a [&&]/[||] list anywhere
    but last.  The commands it runs are external programs; what they return
    is given by the machine the script runs on. *)

Module provision.

(** The commands of the script, in the order of its lines. *)
Inductive Cmd : Type :=
| BtrfsSnapshot          (* btrfs subvolume snapshot SNAPSHOT_PATH INSTANCE_PATH *)
| ChownInstancePath      (* sudo chown draupnir-instance:draupnir INSTANCE_PATH *)
| ChmodInstancePath      (* sudo chmod g+rx INSTANCE_PATH *)
| OpensslReqCA           (* openssl req ... ca.csr, ca.key *)
| ChmodCAKey             (* chmod 600 ca.key *)
| OpensslX509CA          (* openssl x509 ... -signkey ca.key -out ca.crt *)
| ChownCACrt             (* chown draupnir-instance ca.crt *)
| OpensslReqServer       (* openssl req ... server.csr, server.key *)
| ChmodServerKey         (* chmod 600 server.key *)
| OpensslX509Server      (* openssl x509 ... -out server.crt *)
| ChownServer            (* chown draupnir-instance server.key server.crt *)
| CatSslConf             (* cat >> postgresql.conf: ssl_ca_file, ssl_cert_file, ssl_key_file *)
| OpensslReqClient       (* openssl req ... client.csr, client.key *)
| ChmodClientKey         (* chmod 600 client.key *)
| OpensslX509Client      (* openssl x509 ... -out client.crt *)
| ChownClient            (* chown draupnir client.key client.crt *)
| EchoSocketDir          (* echo unix_socket_directories >> postgresql.conf *)
| CatListenLocalhost     (* cat >> postgresql.auto.conf: listen_addresses = 'localhost' *)
| ChmodAutoConf          (* chmod 640 postgresql.auto.conf *)
| CatPgIdent             (* cat > pg_ident.conf *)
| ChownPgIdent           (* chown root:draupnir-instance pg_ident.conf *)
| ChmodPgIdent           (* chmod 640 pg_ident.conf *)
| ChattrPgIdent          (* chattr +i pg_ident.conf *)
| PgCtlStart             (* sudo -u draupnir-instance pg_ctl ... start *)
| PsqlNoTLS              (* PGSSLMODE=disable psql -U draupnir *)
| PsqlNoClientCert       (* PGSSLMODE=verify-ca, root certificate only, psql -U draupnir *)
| PsqlClientCert (user : string)
                         (* PGSSLMODE=verify-ca with client.crt and client.key,
                            psql -U user ... 'SELECT now();' *)
| PsqlUseSuper           (* the same connection with -U draupnir,
                            SELECT usesuper ... CURRENT_USER *)
| RmAutoConf             (* rm -v postgresql.auto.conf *)
| PgCtlRestart           (* sudo -u draupnir-instance pg_ctl ... restart *)
| PgCtlStop.             (* sudo -u draupnir-instance pg_ctl -w -D INSTANCE_PATH stop *)

#[global] Instance Cmd_eq_dec : EqDecision Cmd.
Proof. solve_decision. Defined.

(** The machine: the exit status of each command, and what the superuser
    query prints.  [PsqlClientCert] is one command line up to the name
    after [-U]; the script runs it with [draupnir] and with [postgres]. *)
Record Machine : Type := mkMachine {
  status : Cmd -> Z;
  usesuper : string
}.

(** What the script does that can be seen: the commands it runs and the
    lines it echoes (1 is stdout, 2 is stderr). *)
Inductive Ev : Type :=
| Run (c : Cmd)
| Echo (fd : Z) (line : string)
| Usage.                 (* the usage text of lines 8 to 15, on stdout *)

#[global] Instance Ev_eq_dec : EqDecision Ev.
Proof. solve_decision. Defined.

(** A piece of script: what it does, and either its result or the status
    the shell exits with. *)
Definition Sh (A : Type) : Type := list Ev * (A + Z).

#[global] Instance Sh_ret : MRet Sh := fun A (a : A) => ([], inl a).

#[global] Instance Sh_bind : MBind Sh := fun A B (k : A -> Sh B) (m : Sh A) =>
  match m with
  | (t1, inl a) => let '(t2, r) := k a in (t1 ++ t2, r)
  | (t1, inr code) => (t1, inr code)
  end.

Definition exit {A} (code : Z) : Sh A := ([], inr code).

Definition echo (fd : Z) (line : string) : Sh unit := ([Echo fd line], inl tt).

Section Script.

Variable m : Machine.

(** A command is run; its status is the result. *)
Definition run (c : Cmd) : Sh Z := ([Run c], inl (status m c)).

(** A simple command on a line of its own, under [set -e]. *)
Definition simple (c : Cmd) : Sh unit :=
  s ← run c;
  if s =? 0 then mret tt else exit s.

(** [die_and_stop() { echo "$*" 1>&2; echo "Stopping instance";
    sudo -u draupnir-instance "$PG_CTL" -w -D "$INSTANCE_PATH" stop; exit 1 }]
    [errexit] tells whether [set -e] is in force where the function is
    called: it is not before a [&&] or [||], nor in a command substitution. *)
Definition die_and_stop {A} (errexit : bool) (message : string) : Sh A :=
  echo 2 message;;
  echo 1 "Stopping instance";;
  s ← run PgCtlStop;
  if errexit && negb (s =? 0) then exit s else exit 1.

(** [cmd && die_and_stop "..." || echo "..."] *)
Definition must_fail (c : Cmd) (error info : string) : Sh unit :=
  s ← run c;
  s ← (if s =? 0 then die_and_stop false error else mret s);
  if s =? 0 then mret tt else echo 1 info.

(** [cmd || die_and_stop "..."] *)
Definition must_succeed (errexit : bool) (c : Cmd) (error : string) : Sh unit :=
  s ← run c;
  if s =? 0 then mret tt else die_and_stop errexit error.

(** Inside [$( ... )] standard output is captured: a line echoed there does
    not reach the output of the script. *)
Definition captured (e : Ev) : bool :=
  match e with
  | Echo fd _ => fd =? 1
  | _ => false
  end.

(** [$( ... )]: what happens inside happens, but for the captured output;
    an [exit] inside leaves the substitution only, and the result is its
    status. *)
Definition substitution (body : Sh unit) : Sh Z :=
  match body with
  | (t, inl _) => (List.filter (fun e => negb (captured e)) t, inl 0)
  | (t, inr code) => (List.filter (fun e => negb (captured e)) t, inl code)
  end.

(** Lines 42 to 110, each a simple command. *)
Definition setup : list Cmd :=
  [ BtrfsSnapshot; ChownInstancePath; ChmodInstancePath;
    OpensslReqCA; ChmodCAKey; OpensslX509CA; ChownCACrt;
    OpensslReqServer; ChmodServerKey; OpensslX509Server; ChownServer;
    CatSslConf;
    OpensslReqClient; ChmodClientKey; OpensslX509Client; ChownClient;
    EchoSocketDir; CatListenLocalhost; ChmodAutoConf;
    CatPgIdent; ChownPgIdent; ChmodPgIdent; ChattrPgIdent;
    PgCtlStart ].

Fixpoint simple_all (cs : list Cmd) : Sh unit :=
  match cs with
  | [] => mret tt
  | c :: cs' => simple c;; simple_all cs'
  end.

(** Lines 112 to 152: the checks on the started instance. *)
Definition verify : Sh unit :=
  must_fail PsqlNoTLS
    "ERROR: Able to connect via non-TLS connection"
    "INFO: Not able to connect via non-TLS connection";;
  must_fail PsqlNoClientCert
    "ERROR: Able to connect via TLS connection without client certificate"
    "INFO: Not able to connect without client certificate";;
  must_succeed true (PsqlClientCert "draupnir")
    "ERROR: Unable to connect via client-authenticated TLS connection";;
  s ← substitution
        (must_succeed false PsqlUseSuper "ERROR: Unable to check superuser status");
  (if s =? 0 then mret tt else exit s);;
  let ISSUPERUSER := usesuper m in
  (if String.eqb ISSUPERUSER "f" then mret tt
   else die_and_stop true
          ("ERROR: unexpected superuser status: '" +:+ ISSUPERUSER +:+ "'"));;
  must_fail (PsqlClientCert "postgres")
    "ERROR: Able to connect with postgres user"
    "INFO: Not able to connect with postgres user".

(** Lines 154 to 156: the restriction to localhost is removed and the
    instance restarted. *)
Definition expose : Sh unit :=
  simple RmAutoConf;;
  simple PgCtlRestart.

(** The script, given its arguments: what it does and its exit status. *)
Definition create_instance (args : list string) : list Ev * Z :=
  let script : Sh unit :=
    (if (Z.of_nat (length args) =? 4) then mret tt
     else ([Usage], inl tt);; exit 1);;
    simple_all setup;;
    verify;;
    expose in
  match script with
  | (t, inl _) => (t, 0)
  | (t, inr code) => (t, code)
  end.

End Script.

(** What the script probes on the started instance, as facts about the
    machine: the connection without TLS fails; so does the one with TLS and
    no client certificate; the one with the client certificate as
    [draupnir] succeeds; the query for [usesuper] of the connected user
    succeeds and prints [f]; the connection with the client certificate as
    [postgres] fails. *)
Definition refuses_non_tls (m : Machine) : Prop := status m PsqlNoTLS <> 0.
Definition refuses_no_client_cert (m : Machine) : Prop := status m PsqlNoClientCert <> 0.
Definition accepts_client (m : Machine) : Prop := status m (PsqlClientCert "draupnir") = 0.
Definition usesuper_reads_f (m : Machine) : Prop :=
  status m PsqlUseSuper = 0 /\ usesuper m = "f".
Definition refuses_user_postgres (m : Machine) : Prop :=
  status m (PsqlClientCert "postgres") <> 0.

Definition verified (m : Machine) : Prop :=
  refuses_non_tls m /\ refuses_no_client_cert m /\ accepts_client m
  /\ usesuper_reads_f m /\ refuses_user_postgres m.

(** Modelled from the spec: the fourth check in the words of the
    specification, a connection as any identity other than the provisioned
    client is refused.  The script has no such command; the machine answers
    for the command line of the script with any name after [-U]. *)
Definition refuses_every_other_identity (m : Machine) : Prop :=
  forall user, user <> "draupnir" -> status m (PsqlClientCert user) <> 0.

(** Listening is enabled in a run: the restriction to localhost has been
    removed and the instance restarted. *)
Definition listening_enabled (t : list Ev) : Prop :=
  In (Run RmAutoConf) t /\ In (Run PgCtlRestart) t.

(** What the checks leave behind when all of them hold. *)
Definition verify_passed : list Ev :=
  [ Run PsqlNoTLS; Echo 1 "INFO: Not able to connect via non-TLS connection";
    Run PsqlNoClientCert; Echo 1 "INFO: Not able to connect without client certificate";
    Run (PsqlClientCert "draupnir");
    Run PsqlUseSuper;
    Run (PsqlClientCert "postgres");
    Echo 1 "INFO: Not able to connect with postgres user" ].

(** The instance has been started: every command of the setup succeeded. *)
Definition started (m : Machine) : Prop :=
  Forall (fun c => status m c = 0) setup.

End provision.

(** ** Concrete collaborators

    Instances of what the handlers take as given, to run them on. *)

Module fixtures.
Import http.

Definition LoggerKey : Z := 1.

(** A [GetLogger] in the manner of [GetAuthenticatedUser]. *)
Definition GetLogger (r : Request) : Logger * option error :=
  match Value (Ctx r) LoggerKey with
  | Some (AnyLogger logger) => (logger, None)
  | _ => ([], Some (ErrorString "Could not acquire logger"))
  end.

(** A decoder that takes the body for the state, and rejects an empty body. *)
Definition UnmarshalPayload (body : string)
  : routes.createAccessTokenRequest * option error :=
  if String.eqb body ""
  then ({| routes.State := "" |}, Some (ErrorString "EOF"))
  else ({| routes.State := body |}, None).

(** The 401 document the API tests expect. *)
Definition UnauthorizedError : APIError :=
  {| ID := "unauthorized"; Status := "401"; Code := "unauthorized";
     Title := "Unauthorized";
     Detail := "You do not have permission to view this resource";
     Source := {| SourcePointer := ""; SourceParameter := "" |} |}.

(** Stand-ins for the two API errors of the access-token handlers. *)
Definition invalidJSONError : APIError :=
  {| ID := "bad_request"; Status := "400"; Code := "bad_request";
     Title := "Bad Request"; Detail := "Your request body is not valid JSON";
     Source := {| SourcePointer := ""; SourceParameter := "" |} |}.

Definition oauthError : APIError :=
  {| ID := "oauth_error"; Status := "400"; Code := "oauth_error";
     Title := "OAuth Error"; Detail := "There was an error completing the OAuth flow";
     Source := {| SourcePointer := ""; SourceParameter := "" |} |}.

(** An authenticator that knows one shared secret. *)
Definition authenticator (r : Request) : string * option error :=
  if String.eqb (FormGet r "secret") "thesharedsecret"
  then ("upload", None)
  else ("", Some (ErrorString "invalid shared secret")).

(** An OAuth client that exchanges one code. *)
Definition token : Token :=
  {| AccessToken := "ya29.token"; TokenType := "Bearer";
     RefreshToken := "1/refresh"; Expiry := 1451738045 |}.

Definition client : routes.OAuthClient :=
  {| routes.AuthCodeURL := fun state => "https://accounts.example/o/oauth2/auth?state=" +:+ state;
     routes.Exchange := fun code =>
       if String.eqb code "the-code" then inl token
       else inr (ErrorString "invalid_grant") |}.

(** A request with a logger attached. *)
Definition request (form : list (string * list string)) (body : string) : Request :=
  {| Ctx := [(LoggerKey, AnyLogger [])]; Form := list_to_map form; Body := body |}.

(** A handler that answers 200 with a fixed body. *)
Definition ok_handler : Handler := fun _ => ([Write "ok"], None).

(** A world in which nobody sends on any channel and nothing else happens. *)
Definition quiet : routes.World :=
  {| routes.make_chan := 7%positive; routes.meanwhile := fun m => m;
     routes.senders := fun _ => None; routes.tie := false;
     routes.write_error := None |}.

(** A world in which, five seconds into the wait, a callback delivers the
    provider's refusal on channel 7. *)
Definition denying : routes.World :=
  {| routes.make_chan := 7%positive; routes.meanwhile := fun m => m;
     routes.senders := fun c =>
       if Pos.eqb c 7%positive
       then Some (5 * Second,
                  {| CallbackToken := Token_zero;
                     CallbackError := Some (ErrorString "access_denied") |})
       else None;
     routes.tie := false;
     routes.write_error := None |}.

(** Who receives when a callback sends: the [Create] blocked on one
    channel, or nobody. *)
Definition receiving_on (c : chan) : chan -> bool := fun c' => Pos.eqb c' c.

Definition nobody_receiving : chan -> bool := fun _ => false.

(** Access-token handlers over an empty registry, over one that holds
    another state, and over one that holds two states. *)
Definition tokens_empty : routes.AccessTokens :=
  {| routes.Callbacks := ∅; routes.Client := client |}.

Definition tokens_other : routes.AccessTokens :=
  {| routes.Callbacks := {[ "state-2" := 4%positive ]}; routes.Client := client |}.

Definition tokens_two : routes.AccessTokens :=
  {| routes.Callbacks := {[ "state-1" := 3%positive; "state-2" := 4%positive ]};
     routes.Client := client |}.

Definition create_request : Request := request [] "state-1".

Definition callback_request : Request :=
  request [("state", ["state-1"]); ("code", ["the-code"])] "".

(** Two requests to an authenticated route, with a bad and with the good
    secret, and one that went past the logging middleware. *)
Definition bad_secret_request : Request :=
  request [("secret", ["incorrectsecret"])] "".

Definition good_secret_request : Request :=
  request [("secret", ["thesharedsecret"])] "".

Definition unlogged_request : Request :=
  {| Ctx := []; Form := list_to_map [("secret", ["thesharedsecret"])]; Body := "" |}.

(** A machine on which every command succeeds, the forbidden connections
    included; and one that refuses them and reports an ordinary user. *)
Definition open_machine : provision.Machine :=
  {| provision.status := fun _ => 0; provision.usesuper := "f" |}.

Definition hardened_machine : provision.Machine :=
  {| provision.status := fun c =>
       match c with
       | provision.PsqlNoTLS | provision.PsqlNoClientCert => 2
       | provision.PsqlClientCert user =>
           if String.eqb user "draupnir" then 0 else 2
       | _ => 0
       end;
     provision.usesuper := "f" |}.

(** A machine that turns away [postgres] as the hardened one does, and lets
    in every other user that presents the client certificate. *)
Definition postgres_only_machine : provision.Machine :=
  {| provision.status := fun c =>
       match c with
       | provision.PsqlNoTLS | provision.PsqlNoClientCert => 2
       | provision.PsqlClientCert user =>
           if String.eqb user "postgres" then 2 else 0
       | _ => 0
       end;
     provision.usesuper := "f" |}.

End fixtures.

(** ** The script that destroys an instance

    It runs under [set -e] and [set -u]: reading a positional parameter
    that was not given ends the script with status 1. *)

Module destroy_instance.

Inductive Cmd : Type :=
| PgCtlStop              (* sudo -u postgres pg_ctl -w -D INSTANCE_PATH stop *)
| BtrfsSubvolumeDelete.  (* sudo btrfs subvolume delete INSTANCE_PATH *)

Record Machine : Type := mkMachine {
  status : Cmd -> Z
}.

(** The script, given its arguments: the commands it runs, in order, and
    its exit status.  [ROOT=$1] and [ID=$2] need two arguments; [-z $ID]
    holds of the empty string. *)
Definition script (m : Machine) (args : list string) : list Cmd * Z :=
  match args with
  | _ROOT :: ID :: _ =>
      if String.eqb ID "" then ([], 1)
      else
        if status m PgCtlStop =? 0 then
          if status m BtrfsSubvolumeDelete =? 0
          then ([PgCtlStop; BtrfsSubvolumeDelete], 0)
          else ([PgCtlStop; BtrfsSubvolumeDelete], status m BtrfsSubvolumeDelete)
        else ([PgCtlStop], status m PgCtlStop)
  | _ => ([], 1)
  end.

End destroy_instance.

(** ** pkg/exec: the commands draupnir runs on the host *)

Module exec.

(** What the executor does: the programs it runs, the permissions it sets
    and the lines it logs. *)
Inductive Ev : Type :=
| Command (name : string) (args : list string)
| Chmod (path : string) (perms : Z)
| Printf (line : string)
| Print (output : string).

(** The host: what [exec.Command(...).Output()] returns for a command line,
    and what [os.Chmod] returns. *)
Record OS : Type := mkOS {
  Output : string -> list string -> string * option error;
  chmod : string -> Z -> option error
}.

(** [os.ModeDir], the bit that marks a directory. *)
Definition ModeDir : Z := Z.shiftl 1 31.

(** [filepath.Join("/var/btrfs/image_uploads", fmt.Sprintf("%d", id))] *)
Definition upload_path (id : Z) : string :=
  "/var/btrfs/image_uploads" +:+ "/" +:+ pretty id.

(** [func (e OSExecutor) CreateBtrfsSubvolume(id int) error];
    [os.ModeDir | 0775] prints as [drwxrwxr-x]. *)
Definition CreateBtrfsSubvolume (os : OS) (id : Z) : list Ev * option error :=
  let name := pretty id in
  let path := upload_path id in
  let '(output, err) := Output os "btrfs" ["subvolume"; "create"; path] in
  match err with
  | Some err => ([Command "btrfs" ["subvolume"; "create"; path]], Some err)
  | None =>
      let perms := Z.lor ModeDir 509 in
      match chmod os path perms with
      | Some err =>
          ([Command "btrfs" ["subvolume"; "create"; path];
            Printf ("Created btrfs subvolume " +:+ name +:+ ": " +:+ output);
            Chmod path perms],
           Some err)
      | None =>
          ([Command "btrfs" ["subvolume"; "create"; path];
            Printf ("Created btrfs subvolume " +:+ name +:+ ": " +:+ output);
            Chmod path perms;
            Printf ("Set permissions for " +:+ path +:+ " to drwxrwxr-x")],
           None)
      end
  end.

(** The command line of [FinaliseImage]. *)
Definition baker_args (id : Z) : list string :=
  ["--root"; "/var/btrfs"; "--id"; pretty id;
   "--pgctl"; "/usr/lib/postgresql/9.4/bin/pg_ctl";
   "--action"; "finalise-image"].

(** [func (e OSExecutor) FinaliseImage(id int) error] *)
Definition FinaliseImage (os : OS) (id : Z) : list Ev * option error :=
  let '(output, err) := Output os "draupnir-baker" (baker_args id) in
  match err with
  | Some err =>
      ([Command "draupnir-baker" (baker_args id); Print output], Some err)
  | None =>
      ([Command "draupnir-baker" (baker_args id); Print output;
        Printf ("Finalised image " +:+ pretty id)],
       None)
  end.

End exec.

(** ** pkg/client: requests and responses *)

Module client_http.
Import models.

(** [*http.Response], as far as the client reads it. *)
Record Response : Type := mkResponse {
  StatusCode : Z;
  Body : string
}.

(** [*http.Request], as the client builds it. *)
Record Request : Type := mkRequest {
  Method : string;
  URL : string;
  Payload : string;
  Header : gmap string string
}.

(** How a call ends: it returns, or it dereferences a nil pointer. *)
Inductive go (A : Type) : Type :=
| Returns (a : A)
| Panics.
Arguments Returns {A} a.
Arguments Panics {A}.

(** [Client]: the server's URL and the OAuth token; its [*http.Client] is
    the transport the functions below are given. *)
Record Client : Type := mkClient {
  url : string;
  token : http.Token
}.

Definition StatusOK : Z := 200.
Definition StatusCreated : Z := 201.
Definition StatusNoContent : Z := 204.

Section Client.

(** [version.Version], [http.NewRequest]'s verdict on a method and a URL,
    the transport [c.client.Do], and the JSON decoders are given from
    outside.  A decoder that writes through a pointer takes the value
    pointed to and returns the value left there. *)
Variable Version : string.
Variable NewRequest_error : string -> string -> option error.
Variable Do : Request -> option Response * option error.
Variable UnmarshalImage : string -> Image -> Image * option error.
Variable UnmarshalManyImages : string -> list Image * option error.
Variable DecodeAPIError : string -> http.APIError * option error.

(** [func (c Client) authorizationHeader() string] *)
Definition authorizationHeader (c : Client) : string :=
  "Bearer " +:+ http.RefreshToken (token c).

(** [func (c Client) do(req *http.Request)]: the response, possibly nil, and
    the error of the transport. *)
Definition do (c : Client) (req : Request) : option Response * option error :=
  let header := <["Content-Type" := "application/json"]> (Header req) in
  let header := <["Authorization" := authorizationHeader c]> header in
  let header := <["Draupnir-Version" := Version]> header in
  Do {| Method := Method req; URL := URL req; Payload := Payload req;
        Header := header |}.

(** [http.NewRequest(method, url, body)] followed by [c.do(req)]. *)
Definition send (c : Client) (method path payload : string)
  : option Response * option error :=
  match NewRequest_error method (url c +:+ path) with
  | Some err => (None, Some err)
  | None => do c {| Method := method; URL := url c +:+ path;
                    Payload := payload; Header := ∅ |}
  end.

(** [func (c Client) get(path string)] *)
Definition get (c : Client) (path : string) := send c "GET" path "".

(** [func (c Client) post(path string, payload *bytes.Buffer)] *)
Definition post (c : Client) (path payload : string) := send c "POST" path payload.

(** [func (c Client) delete(path string)] *)
Definition delete (c : Client) (path : string) := send c "DELETE" path "".

(** [func parseError(r io.Reader) error] *)
Definition parseError (body : string) : option error :=
  let '(apiError, err) := DecodeAPIError body in
  match err with
  | Some err => Some err
  | None => Some (ErrorString (http.Title apiError +:+ " (" +:+
                               http.Detail apiError +:+ ")"))
  end.

(** [func (c Client) GetImage(id string) (models.Image, error)] *)
Definition GetImage (c : Client) (id : string) : go (Image * option error) :=
  let image := models.zero in
  match get c ("/images/" +:+ id) with
  | (_, Some err) => Returns (image, Some err)
  | (None, None) => Panics
  | (Some resp, None) =>
      if negb (StatusCode resp =? StatusOK)
      then Returns (image, parseError (Body resp))
      else Returns (UnmarshalImage (Body resp) image)
  end.

(** The loop of [ListImages] that copies the decoded images. *)
Fixpoint copy_images (maybeImages images : list Image) : list Image :=
  match maybeImages with
  | [] => images
  | i :: rest => copy_images rest (images ++ [i])
  end.

(** [func (c Client) ListImages() ([]models.Image, error)] *)
Definition ListImages (c : Client) : go (list Image * option error) :=
  let images : list Image := [] in
  match get c "/images" with
  | (_, Some err) => Returns (images, Some err)
  | (None, None) => Panics
  | (Some resp, None) =>
      if negb (StatusCode resp =? StatusOK)
      then Returns (images, parseError (Body resp))
      else
        let '(maybeImages, err) := UnmarshalManyImages (Body resp) in
        match err with
        | Some err => Returns ([], Some err)
        | None => Returns (copy_images maybeImages [], None)
        end
  end.

(** [func (c Client) FinaliseImage(imageID int) (models.Image, error)]: the
    body of the response is read when, and only when, [post] returned an
    error. *)
Definition FinaliseImage (c : Client) (imageID : Z) : go (Image * option error) :=
  let image := models.zero in
  match post c ("/images/" +:+ pretty imageID +:+ "/done") "" with
  | (Some resp, Some _) => Returns (UnmarshalImage (Body resp) image)
  | (None, Some _) => Panics
  | (_, None) => Returns (image, None)
  end.

(** [func (c Client) DestroyImage(image models.Image) error] *)
Definition DestroyImage (c : Client) (image : Image) : go (option error) :=
  let url := "/images/" +:+ pretty (ID image) in
  match delete c url with
  | (_, Some err) => Returns (Some err)
  | (None, None) => Panics
  | (Some resp, None) =>
      if negb (StatusCode resp =? StatusNoContent)
      then Returns (parseError (Body resp))
      else Returns None
  end.

Section GetLatestImage.

Variable sort_Slice : (Image -> Image -> bool) -> list Image -> list Image.

(** [GetLatestImage] on the listing [ListImages] gets from the server. *)
Definition GetLatestImage (c : Client) : go (list string * (Image * option error)) :=
  match ListImages c with
  | Panics => Panics
  | Returns listing => Returns (client.GetLatestImage sort_Slice listing)
  end.

End GetLatestImage.

(** The request the client's functions send for a method, a path and a
    payload: the three headers are set, and nothing else. *)
Definition sent (c : Client) (method path payload : string) : Request :=
  {| Method := method; URL := url c +:+ path; Payload := payload;
     Header := <["Draupnir-Version" := Version]>
                 (<["Authorization" := "Bearer " +:+ http.RefreshToken (token c)]>
                    (<["Content-Type" := "application/json"]> ∅)) |}.

End Client.

End client_http.

(** ** More concrete collaborators *)

Module fixtures_more.
Import http.

(** A world in which, while [Create] waits, another [Create] registers the
    same state on channel 9, and nobody sends. *)
Definition crowded : routes.World :=
  {| routes.make_chan := 7%positive;
     routes.meanwhile := fun m => <["state-1" := 9%positive]> m;
     routes.senders := fun _ => None; routes.tie := false;
     routes.write_error := None |}.

(** The redirect request that opens a flow under state-1. *)
Definition authenticate_request : Request :=
  fixtures.request [("state", ["state-1"])] "".

(** A callback to which the provider names an error. *)
Definition denied_request : Request :=
  fixtures.request [("state", ["state-1"]); ("error", ["access_denied"])] "".

(** A client of a server at [https://draupnir.example], holding the token
    of the other fixtures. *)
Definition api_client : client_http.Client :=
  {| client_http.url := "https://draupnir.example";
     client_http.token := fixtures.token |}.

(** A server that answers 204 to requests bearing the refresh token and 401
    to all others, and one that answers 204 to everything. *)
Definition strict_server (req : client_http.Request)
  : option client_http.Response * option error :=
  match client_http.Header req !! "Authorization" with
  | Some v =>
      if String.eqb v "Bearer 1/refresh"
      then (Some {| client_http.StatusCode := 204; client_http.Body := "" |}, None)
      else (Some {| client_http.StatusCode := 401; client_http.Body := "" |}, None)
  | None => (Some {| client_http.StatusCode := 401; client_http.Body := "" |}, None)
  end.

Definition lax_server (req : client_http.Request)
  : option client_http.Response * option error :=
  (Some {| client_http.StatusCode := 204; client_http.Body := "" |}, None).

(** A server that lists three images, with a decoder that knows its body. *)
Definition three_images : list models.Image :=
  [ {| models.ID := 1; models.BackedUpAt := 10; models.Ready := true;
       models.Anon := ""; models.CreatedAt := 10; models.UpdatedAt := 20 |};
    {| models.ID := 3; models.BackedUpAt := 50; models.Ready := false;
       models.Anon := ""; models.CreatedAt := 50; models.UpdatedAt := 60 |};
    {| models.ID := 2; models.BackedUpAt := 30; models.Ready := true;
       models.Anon := ""; models.CreatedAt := 30; models.UpdatedAt := 40 |} ].

Definition listing_server (req : client_http.Request)
  : option client_http.Response * option error :=
  (Some {| client_http.StatusCode := 200; client_http.Body := "three images" |}, None).

Definition listing_decoder (body : string) : list models.Image * option error :=
  if String.eqb body "three images" then (three_images, None)
  else ([], Some (ErrorString "data is not a jsonapi representation")).

Definition no_api_error (body : string) : http.APIError * option error :=
  (fixtures.UnauthorizedError, None).

Definition any_request (method url : string) : option error := None.

Definition image_decoder (body : string) (image : models.Image)
  : models.Image * option error :=
  (image, Some (ErrorString "EOF")).

End fixtures_more.

(** * Properties *)

(** ** The image store *)

Module store_properties.
Import models store.

Lemma where_id_ready_true i rdy r :
  where_id_ready i rdy r = true <-> id r = i /\ ready r = rdy.
Proof.
  unfold where_id_ready. rewrite andb_true_iff, Z.eqb_eq, eqb_true_iff.
  reflexivity.
Qed.

Lemma where_id_ready_false i rdy r :
  where_id_ready i rdy r = false <-> ~ (id r = i /\ ready r = rdy).
Proof.
  rewrite <- where_id_ready_true. destruct (where_id_ready i rdy r); split;
    intros; try congruence; try discriminate.
Qed.

Lemma update_returning_nil now i rdy rs :
  update_returning now i rdy rs = [] <->
  (forall r, In r rs -> where_id_ready i rdy r = false).
Proof.
  unfold update_returning. induction rs as [|r rs IH]; simpl.
  - split; [intros _ r []|reflexivity].
  - destruct (where_id_ready i rdy r) eqn:E; simpl.
    + split; [discriminate|]. intros H. rewrite (H r) in E by auto. discriminate.
    + rewrite IH. split.
      * intros H r' [<-|Hin]; auto.
      * intros H r' Hin. apply H. auto.
Qed.

Lemma update_returning_head now i rdy rs r rest :
  update_returning now i rdy rs = r :: rest ->
  id r = i /\ ready r = true /\ updated_at r = now /\
  exists r0, In r0 rs /\ where_id_ready i rdy r0 = true /\ r = set_ready now r0.
Proof.
  unfold update_returning. intros H.
  assert (Hin : In r (map (set_ready now) (List.filter (where_id_ready i rdy) rs)))
    by (rewrite H; simpl; auto).
  apply in_map_iff in Hin as (r0 & <- & Hin). apply filter_In in Hin as [Hin Hw].
  pose proof (proj1 (where_id_ready_true _ _ _) Hw) as [Hid _].
  simpl. repeat split; eauto.
Qed.

Lemma update_ready_unaddressed now i rdy rs :
  (forall r, In r rs -> where_id_ready i rdy r = false) ->
  update_ready now i rdy rs = rs.
Proof.
  unfold update_ready. induction rs as [|r rs IH]; simpl; intros H; [reflexivity|].
  rewrite (H r) by auto. f_equal. apply IH. intros; apply H; auto.
Qed.

Lemma update_ready_rows now i rdy rs :
  Forall2 (fun r r' =>
             (id r = i /\ ready r = rdy -> r' = set_ready now r) /\
             (~ (id r = i /\ ready r = rdy) -> r' = r))
          rs (update_ready now i rdy rs).
Proof.
  unfold update_ready. induction rs as [|r rs IH]; simpl; constructor; auto.
  destruct (where_id_ready i rdy r) eqn:E.
  - apply where_id_ready_true in E. split; [reflexivity|]. intros H; contradiction.
  - apply where_id_ready_false in E. split; [intros H; contradiction|reflexivity].
Qed.

(** After the update no row is left with the addressed id and [ready = false]. *)
Lemma update_ready_consumes now i rs r :
  In r (update_ready now i false rs) -> where_id_ready i false r = false.
Proof.
  unfold update_ready. rewrite in_map_iff. intros (r0 & <- & _).
  destruct (where_id_ready i false r0) eqn:E; [|exact E].
  apply where_id_ready_false. simpl. intros [_ H]. discriminate.
Qed.

Lemma update_ready_monotone now i rdy rs :
  Forall2 stays_ready rs (update_ready now i rdy rs).
Proof.
  unfold update_ready, stays_ready.
  induction rs as [|r rs IH]; simpl; constructor; auto.
  destruct (where_id_ready i rdy r); simpl; auto.
Qed.

Lemma MarkAsReady_images s now image :
  images (fst (MarkAsReady s now image)) =
  update_ready now (ID image) (Ready image) (images s).
Proof.
  unfold MarkAsReady.
  destruct (update_returning now (ID image) (Ready image) (images s)); reflexivity.
Qed.

Lemma stays_ready_chain l0 l1 :
  Forall2 stays_ready l0 l1 ->
  forall l2, Forall2 stays_ready l1 l2 -> Forall2 stays_ready l0 l2.
Proof.
  induction 1 as [|a b l0 l1 [Hid Hrd] _ IH]; intros l2 H2;
    inversion H2 as [|b' c l1' l2' [Hid' Hrd'] Hrest]; subst; constructor.
  - split; [congruence|auto].
  - apply IH; assumption.
Qed.

Lemma MarkAsReady_all_monotone calls : forall s,
  Forall2 stays_ready (images s) (images (MarkAsReady_all s calls)).
Proof.
  induction calls as [|[now image] calls IH]; intros s; simpl.
  - induction (images s); constructor; [split|]; auto.
  - eapply stays_ready_chain; [|apply IH].
    rewrite MarkAsReady_images. apply update_ready_monotone.
Qed.

(** C1.  [MarkAsReady] is a compare-and-set on [ready].  A row is rewritten
    (to [ready = true], stamped [now]) exactly when it has the image's id and
    the [ready] value the image carries, and every other row is left as it
    was; when some row is addressed the call succeeds and returns a ready
    image with that id; when none is (unknown id, or [ready] already moved)
    the call fails with [sql.ErrNoRows], returns the input and leaves the
    database as it was.  No sequence of calls takes [ready] back from true,
    so a row goes from false to true at most once, and a call that presents
    [ready = false] again after a first call fails and changes nothing. *)
Theorem MarkAsReady_compare_and_set (s : DB) (now : Time) (image : Image) :
  let s' := fst (MarkAsReady s now image) in
  let out := fst (snd (MarkAsReady s now image)) in
  let err := snd (snd (MarkAsReady s now image)) in
  Forall2 (fun r r' =>
             (addressed image r -> r' = set_ready now r) /\
             (~ addressed image r -> r' = r))
          (images s) (images s')
  /\ ((exists r, In r (images s) /\ addressed image r) ->
      err = None /\ Ready out = true /\ ID out = ID image)
  /\ ((forall r, In r (images s) -> ~ addressed image r) ->
      err = Some ErrNoRows /\ out = image /\ s' = s)
  /\ (forall calls,
        Forall2 stays_ready (images s) (images (MarkAsReady_all s calls)))
  /\ (Ready image = false ->
      forall now',
        snd (snd (MarkAsReady s' now' image)) = Some ErrNoRows /\
        fst (MarkAsReady s' now' image) = s').
Proof.
  cbv zeta. unfold addressed.
  split; [|split; [|split; [|split]]].
  - rewrite MarkAsReady_images. apply update_ready_rows.
  - intros (r & Hin & Hid & Hrd). unfold MarkAsReady.
    destruct (update_returning now (ID image) (Ready image) (images s))
      as [|r1 rest] eqn:E.
    + rewrite update_returning_nil in E. specialize (E r Hin).
      apply where_id_ready_false in E. tauto.
    + apply update_returning_head in E as (Hi & Hr & _). simpl. auto.
  - intros Hnone.
    assert (E : forall r, In r (images s) ->
                  where_id_ready (ID image) (Ready image) r = false).
    { intros r Hin. apply where_id_ready_false. auto. }
    unfold MarkAsReady.
    rewrite (proj2 (update_returning_nil _ _ _ _) E). simpl.
    rewrite update_ready_unaddressed by exact E. destruct s; auto.
  - intros calls. apply MarkAsReady_all_monotone.
  - intros Hfalse now'.
    assert (E : forall r, In r (images (fst (MarkAsReady s now image))) ->
                  where_id_ready (ID image) (Ready image) r = false).
    { intros r. rewrite MarkAsReady_images, Hfalse. apply update_ready_consumes. }
    unfold MarkAsReady at 1 3.
    rewrite (proj2 (update_returning_nil _ _ _ _) E). simpl.
    rewrite update_ready_unaddressed by exact E.
    destruct (fst (MarkAsReady s now image)); auto.
Qed.

(** Two callers finalise image 1, both having seen it not ready: the first
    call succeeds, the second finds no row. *)
Example MarkAsReady_twice :
  let s := {| images := [ {| id := 1; backed_up_at := 10; ready := false;
                             anon := "CREATE DATABASE foo;";
                             created_at := 11; updated_at := 12 |} ];
              images_id_seq := 2 |} in
  let image := {| ID := 1; BackedUpAt := 10; Ready := false; Anon := "";
                  CreatedAt := 11; UpdatedAt := 12 |} in
  let first := MarkAsReady s 20 image in
  let second := MarkAsReady (fst first) 21 image in
  snd first = ({| ID := 1; BackedUpAt := 10; Ready := true; Anon := "";
                  CreatedAt := 11; UpdatedAt := 20 |}, None)
  /\ snd second = (image, Some ErrNoRows)
  /\ fst second = fst first.
Proof. cbv zeta. repeat split. Qed.

(** *** [Create] *)

(** C4, as claimed, fails: on an empty table, [Create] of an image that
    carries [Ready = true] inserts a row whose [ready] column is true. *)
Lemma Create_inserts_ready_true :
  let s := {| images := []; images_id_seq := 1 |} in
  let image := {| ID := 0; BackedUpAt := 1451738045; Ready := true;
                  Anon := "CREATE DATABASE foo;";
                  CreatedAt := 1451738050; UpdatedAt := 1451738050 |} in
  images (fst (Create s image)) =
    [ {| id := 1; backed_up_at := 1451738045; ready := true;
         anon := "CREATE DATABASE foo;";
         created_at := 1451738050; updated_at := 1451738050 |} ]
  /\ ~ Forall (fun r => ready r = false) (images (fst (Create s image))).
Proof.
  cbv zeta. split; [reflexivity|].
  intros H. inversion H as [|r rs Hr _]. discriminate Hr.
Qed.

Lemma filter_where_id_fresh i rs :
  (forall r, In r rs -> id r < i) -> List.filter (where_id i) rs = [].
Proof.
  induction rs as [|r rs IH]; simpl; intros H; [reflexivity|].
  unfold where_id at 1. destruct (Z.eqb_spec (id r) i) as [E|_].
  - specialize (H r (or_introl eq_refl)). lia.
  - apply IH. intros; apply H; auto.
Qed.

(** C4, amended.  [Create] appends one row and changes no other; the row
    gets the next id of the sequence and, for every other column, the value
    the input carries - [ready] included, so the row is not ready exactly
    when the input is not.  The call succeeds and returns the input with the
    assigned id, its timestamps being the ones it came with; when the
    sequence is ahead of the ids in use, [Get] of that id finds the record. *)
Theorem Create_inserts_what_it_is_given (s : DB) (image : Image) :
  let s' := fst (Create s image) in
  let out := fst (snd (Create s image)) in
  let err := snd (snd (Create s image)) in
  (exists r, images s' = images s ++ [r]
             /\ id r = images_id_seq s
             /\ ready r = Ready image
             /\ anon r = Anon image
             /\ backed_up_at r = BackedUpAt image
             /\ created_at r = CreatedAt image
             /\ updated_at r = UpdatedAt image
             /\ full r = out)
  /\ err = None
  /\ out = {| ID := images_id_seq s; BackedUpAt := BackedUpAt image;
              Ready := Ready image; Anon := Anon image;
              CreatedAt := CreatedAt image; UpdatedAt := UpdatedAt image |}
  /\ ((forall r, In r (images s) -> id r < images_id_seq s) ->
      Get s' (ID out) = (out, None)).
Proof.
  cbv zeta. split; [|split; [|split]]; try reflexivity.
  - eexists. simpl. repeat split; reflexivity.
  - intros Hfresh. unfold Get. simpl. rewrite List.filter_app.
    rewrite filter_where_id_fresh by exact Hfresh. simpl.
    unfold where_id. simpl. rewrite Z.eqb_refl. reflexivity.
Qed.

(** *** [List] and [Get] *)

(** A table of two rows, inserted out of id order. *)
Example List_and_Get_on_two_rows :
  let s := {| images :=
                [ {| id := 2; backed_up_at := 30; ready := true;
                     anon := "UPDATE users SET email = NULL;";
                     created_at := 31; updated_at := 32 |};
                  {| id := 1; backed_up_at := 10; ready := false;
                     anon := "CREATE DATABASE foo;";
                     created_at := 11; updated_at := 12 |} ];
              images_id_seq := 3 |} in
  List s =
    ([ {| ID := 1; BackedUpAt := 10; Ready := false; Anon := "";
          CreatedAt := 11; UpdatedAt := 12 |};
       {| ID := 2; BackedUpAt := 30; Ready := true; Anon := "";
          CreatedAt := 31; UpdatedAt := 32 |} ], None)
  /\ Get s 1 =
       ({| ID := 1; BackedUpAt := 10; Ready := false;
           Anon := "CREATE DATABASE foo;";
           CreatedAt := 11; UpdatedAt := 12 |}, None)
  /\ Get s 5 = (models.zero, Some ErrNoRows).
Proof. cbv zeta. repeat split. Qed.

Lemma Scan5_twice c c' image : Scan5 c (Scan5 c' image) = Scan5 c image.
Proof. destruct c as [[[[i b] r] ca] ua], c' as [[[[i' b'] r'] ca'] ua']. reflexivity. Qed.

Lemma List_loop_map rows : forall image acc,
  List_loop rows image acc = acc ++ map (fun c => Scan5 c image) rows.
Proof.
  induction rows as [|c rows IH]; intros image acc; simpl.
  - rewrite app_nil_r. reflexivity.
  - rewrite IH, <- app_assoc. simpl. do 2 f_equal.
    apply map_ext. intros c'. apply Scan5_twice.
Qed.

Lemma List_listed s : fst (List s) = map listed (order_by_id (images s)).
Proof.
  unfold List. simpl. rewrite List_loop_map. simpl.
  rewrite map_map. reflexivity.
Qed.






Lemma filter_where_id_absent i rs :
  ~ In i (map id rs) -> List.filter (where_id i) rs = [].
Proof.
  induction rs as [|r rs IH]; simpl; intros H; [reflexivity|].
  unfold where_id at 1. destruct (Z.eqb_spec (id r) i) as [E|_].
  - exfalso. apply H. left. exact E.
  - apply IH. intros Hin. apply H. right. exact Hin.
Qed.

Lemma filter_where_id_unique r rs :
  List.NoDup (map id rs) -> In r rs -> List.filter (where_id (id r)) rs = [r].
Proof.
  induction rs as [|r' rs IH]; simpl; intros Hnd Hin; [contradiction|].
  inversion Hnd as [|x xs Hnotin Hnd']; subst.
  unfold where_id at 1. destruct (Z.eqb_spec (id r') (id r)) as [E|N].
  - destruct Hin as [->|Hin].
    + f_equal. apply filter_where_id_absent. exact Hnotin.
    + exfalso. apply Hnotin. rewrite E. apply in_map. exact Hin.
  - destruct Hin as [->|Hin]; [congruence|]. apply IH; assumption.
Qed.




End store_properties.

(** ** The authentication middleware *)

Module middleware_properties.
Import http middleware.

Ltac run_eff :=
  unfold trace, value, call, AuthenticateRequest, RenderError, emit,
    mbind, Eff_bind, mret, Eff_ret in *; simpl in *.

(** A request that carries no logger stops the middleware before the
    authenticator is consulted: nothing is written and [GetLogger]'s error
    is returned. *)
Lemma Authenticate_without_logger GetLogger UnauthorizedError authenticator next r logger e :
  GetLogger r = (logger, Some e) ->
  Authenticate GetLogger UnauthorizedError authenticator next r = ([], Some e).
Proof. intros H. unfold Authenticate. rewrite H. reflexivity. Qed.

Lemma Value_WithValue ctx key val :
  Value (WithValue ctx key val) key = Some val.
Proof. unfold WithValue. simpl. rewrite Z.eqb_refl. reflexivity. Qed.

(** C8.  On a request that carries a logger: when the authenticator fails
    to authenticate it, the middleware logs the authenticator's error,
    answers with the Unauthorized response (status 401 and the encoded
    error, nothing else written), does not call the next handler and returns
    nil; when the authenticator succeeds, the next handler is called, once,
    on a request from which [GetAuthenticatedUser] retrieves the identity
    the authenticator returned, and its result is returned.  And on a
    request with no identity attached [GetAuthenticatedUser] returns its own
    error, with an empty user. *)
Theorem Authenticate_rejects_or_attaches_identity
    (GetLogger : Request -> Logger * option error) (UnauthorizedError : APIError)
    (authenticator : Authenticator) (next : Handler) (r : Request)
    (logger : Logger) :
  GetLogger r = (logger, None) ->
  let run := Authenticate GetLogger UnauthorizedError authenticator next r in
  (forall email err,
      authenticator r = (email, Some err) ->
      trace run = [CallAuthenticateRequest r email (Some err);
                   Log Info logger (Error err);
                   WriteHeader StatusUnauthorized;
                   Encode (EncodeAPIError UnauthorizedError)]
      /\ renders_unauthorized UnauthorizedError (trace run)
      /\ ~ invokes_next (trace run)
      /\ value run = None)
  /\ (forall email,
        authenticator r = (email, None) ->
        exists r',
          trace run = [CallAuthenticateRequest r email None;
                       CallNext r' (trace (next r')) (value (next r'))]
          /\ value run = value (next r')
          /\ GetAuthenticatedUser r' = (email, None))
  /\ (forall r0, ~ has_identity r0 ->
        GetAuthenticatedUser r0 =
          ("", Some (ErrorString "Could not acquire authenticated user"))).
Proof.
  intros Hl. cbv zeta. unfold Authenticate, renders_unauthorized, invokes_next.
  rewrite Hl. split; [|split].
  - intros email err Ha. run_eff. rewrite Ha. simpl.
    split; [reflexivity|]. split; [reflexivity|]. split; [|reflexivity].
    intros (r' & inner & err' & Hin). simpl in Hin.
    repeat (destruct Hin as [Hin|Hin]; [discriminate Hin|]). exact Hin.
  - intros email Ha. run_eff. rewrite Ha. simpl.
    destruct (next _) as [inner ret0] eqn:En. simpl.
    eexists. rewrite En. simpl. split; [reflexivity|]. split; [reflexivity|].
    unfold GetAuthenticatedUser, WithContext. simpl. reflexivity.
  - intros r0 Hno. unfold GetAuthenticatedUser, has_identity in *.
    destruct (Value (Ctx r0) AuthUserKey) as [[user| |]|]; try reflexivity.
    exfalso. apply Hno. exists user. reflexivity.
Qed.

Lemma Authenticate_rejects_or_attaches_identity_witness :
  let refused := Authenticate fixtures.GetLogger fixtures.UnauthorizedError
                   fixtures.authenticator fixtures.ok_handler
                   fixtures.bad_secret_request in
  let admitted := Authenticate fixtures.GetLogger fixtures.UnauthorizedError
                    fixtures.authenticator fixtures.ok_handler
                    fixtures.good_secret_request in
  fixtures.GetLogger fixtures.bad_secret_request = ([], None)
  /\ fixtures.authenticator fixtures.bad_secret_request
     = ("", Some (ErrorString "invalid shared secret"))
  /\ renders_unauthorized fixtures.UnauthorizedError (trace refused)
  /\ ~ invokes_next (trace refused)
  /\ fixtures.authenticator fixtures.good_secret_request = ("upload", None)
  /\ exists r', In (CallNext r' [Write "ok"] None) (trace admitted)
                /\ GetAuthenticatedUser r' = ("upload", None).
Proof.
  cbv zeta.
  assert (Hbad : fixtures.authenticator fixtures.bad_secret_request
                 = ("", Some (ErrorString "invalid shared secret")))
    by (vm_compute; reflexivity).
  assert (Hgood : fixtures.authenticator fixtures.good_secret_request
                  = ("upload", None))
    by (vm_compute; reflexivity).
  destruct (Authenticate_rejects_or_attaches_identity
              fixtures.GetLogger fixtures.UnauthorizedError
              fixtures.authenticator fixtures.ok_handler
              fixtures.bad_secret_request [] eq_refl) as (Hfail & _ & _).
  destruct (Authenticate_rejects_or_attaches_identity
              fixtures.GetLogger fixtures.UnauthorizedError
              fixtures.authenticator fixtures.ok_handler
              fixtures.good_secret_request [] eq_refl) as (_ & Hpass & _).
  destruct (Hfail _ _ Hbad) as (_ & H401 & Hnext & _).
  destruct (Hpass _ Hgood) as (r' & Ht & _ & Hu).
  split; [reflexivity|]. split; [exact Hbad|]. split; [exact H401|].
  split; [exact Hnext|]. split; [exact Hgood|].
  exists r'. split; [|exact Hu]. rewrite Ht. right. left. reflexivity.
Defined.

(** The middleware on three requests: a bad secret, the good one, and a
    request without a logger. *)
Example Authenticate_bad_secret :
  Authenticate fixtures.GetLogger fixtures.UnauthorizedError
    fixtures.authenticator fixtures.ok_handler fixtures.bad_secret_request
  = ([CallAuthenticateRequest fixtures.bad_secret_request ""
        (Some (ErrorString "invalid shared secret"));
      Log Info [] "invalid shared secret";
      WriteHeader 401;
      Encode (EncodeAPIError fixtures.UnauthorizedError)],
     None).
Proof. vm_compute. reflexivity. Qed.

Example Authenticate_good_secret :
  let run := Authenticate fixtures.GetLogger fixtures.UnauthorizedError
               fixtures.authenticator fixtures.ok_handler
               fixtures.good_secret_request in
  exists r', trace run =
               [CallAuthenticateRequest fixtures.good_secret_request "upload" None;
                CallNext r' [Write "ok"] None]
             /\ GetAuthenticatedUser r' = ("upload", None)
             /\ value run = None.
Proof. cbv zeta. eexists. vm_compute. repeat split. Qed.

Example Authenticate_unlogged :
  Authenticate fixtures.GetLogger fixtures.UnauthorizedError
    fixtures.authenticator fixtures.ok_handler fixtures.unlogged_request
  = ([], Some (ErrorString "Could not acquire logger")).
Proof. vm_compute. reflexivity. Qed.

End middleware_properties.

(** ** The access-token handlers *)

Module routes_properties.
Import http routes.

Ltac run_eff :=
  unfold trace, value, call, RenderError, emit,
    mbind, Eff_bind, mret, Eff_ret in *; simpl in *.

Lemma OAUTH_CALLBACK_TIMEOUT_is_one_minute :
  OAUTH_CALLBACK_TIMEOUT = 60 * 1000000000.
Proof. reflexivity. Qed.

Lemma select_or_timeout_bounded sender tie0 timeout :
  0 <= timeout ->
  0 <= fst (select_or_timeout sender tie0 timeout) <= timeout.
Proof.
  intros Ht. unfold select_or_timeout. destruct sender as [[t c]|]; simpl; [|lia].
  destruct (Z.ltb_spec t timeout); simpl; [lia|].
  destruct (Z.eqb_spec t timeout); simpl; [|lia]. destruct tie0; simpl; lia.
Qed.

Lemma select_or_timeout_received t c tie0 timeout :
  t < timeout ->
  select_or_timeout (Some (t, c)) tie0 timeout = (Z.max 0 t, Received c).
Proof.
  intros Ht. unfold select_or_timeout.
  destruct (Z.ltb_spec t timeout); [reflexivity|lia].
Qed.

Lemma select_or_timeout_late t c tie0 timeout :
  timeout < t ->
  select_or_timeout (Some (t, c)) tie0 timeout = (timeout, TimerFired).
Proof.
  intros Ht. unfold select_or_timeout.
  destruct (Z.ltb_spec t timeout); [lia|].
  destruct (Z.eqb_spec t timeout); [lia|]. reflexivity.
Qed.

(** The trace and result of [waitForCallback], by the case its select takes. *)
Lemma waitForCallback_timeout w ch :
  select_or_timeout (senders w ch) (tie w) OAUTH_CALLBACK_TIMEOUT
    = (OAUTH_CALLBACK_TIMEOUT, TimerFired) ->
  waitForCallback w ch =
    ([Blocked OAUTH_CALLBACK_TIMEOUT],
     (Token_zero, Some (ErrorString "Callback timed out"))).
Proof. intros H. unfold waitForCallback. rewrite H. reflexivity. Qed.

Lemma waitForCallback_received w ch d c :
  select_or_timeout (senders w ch) (tie w) OAUTH_CALLBACK_TIMEOUT
    = (d, Received c) ->
  waitForCallback w ch =
    ([Blocked d],
     match CallbackError c with
     | Some err => (Token_zero, Some err)
     | None => (CallbackToken c, None)
     end).
Proof.
  intros H. unfold waitForCallback. rewrite H.
  destruct (CallbackError c); reflexivity.
Qed.

Section AccessTokens.

Variable GetLogger : Request -> Logger * option error.
Variable UnmarshalPayload : string -> createAccessTokenRequest * option error.
Variable invalidJSONError : APIError.
Variable oauthError : APIError.

#[local] Abbreviation Create :=
  (Create GetLogger UnmarshalPayload invalidJSONError oauthError).
#[local] Abbreviation Callback := (Callback GetLogger).

(** [Create], once the request has a logger and a state, in terms of its wait. *)
Lemma Create_after_wait a w r logger req :
  GetLogger r = (logger, None) ->
  UnmarshalPayload (Body r) = (req, None) ->
  Create a w r =
    let wait := waitForCallback w (make_chan w) in
    let callbacks :=
      delete (State req)
             (meanwhile w (<[State req := make_chan w]> (Callbacks a))) in
    match snd (snd wait) with
    | Some err =>
        (fst wait ++
           [Log Info (With logger "error" (Error err)) "oauth request failed";
            WriteHeader StatusBadRequest; Encode (EncodeAPIError oauthError)],
         (callbacks, None))
    | None =>
        (fst wait ++
           [WriteHeader StatusCreated; Encode (EncodeToken (fst (snd wait)))],
         (callbacks,
          match write_error w with
          | Some err => Some (Wrap err "failed to encode access token")
          | None => None
          end))
    end.
Proof.
  intros Hl Hu. unfold routes.Create. rewrite Hl, Hu.
  destruct (waitForCallback w (make_chan w)) as [t [token [err|]]]; run_eff.
  - reflexivity.
  - destruct (write_error w); reflexivity.
Qed.

(** C2, amended.  Once it has registered its slot, [Create] blocks on it for
    at most [OAUTH_CALLBACK_TIMEOUT], which is one minute, whatever the rest
    of the system does.  If a callback carrying a token is sent within the
    minute, the wait lasts until then and returns that token, which [Create]
    writes to the response with status 201; [Create] then returns nil, or
    the error of the write.  If nothing is sent on the slot within the
    minute, the wait lasts the full minute and fails with the error
    "Callback timed out"; if a callback carrying an error is sent earlier,
    the wait lasts until then and fails with that error.  In both cases the
    error stays inside [Create]: its text is logged, the response is the
    fixed OAuth error with status 400, and [Create] returns nil. *)
Theorem Create_waits_for_callback_or_timeout
    (a : AccessTokens) (w : World) (r : Request)
    (logger : Logger) (req : createAccessTokenRequest) :
  GetLogger r = (logger, None) ->
  UnmarshalPayload (Body r) = (req, None) ->
  let run := Create a w r in
  let wait := waitForCallback w (make_chan w) in
  let sender := senders w (make_chan w) in
  OAUTH_CALLBACK_TIMEOUT = 60 * 1000000000
  /\ (exists d, blocked (trace run) = [d] /\ 0 <= d <= OAUTH_CALLBACK_TIMEOUT)
  /\ (sender = None \/ (exists t c, sender = Some (t, c) /\ OAUTH_CALLBACK_TIMEOUT < t) ->
      value wait = (Token_zero, Some (ErrorString "Callback timed out"))
      /\ blocked (trace run) = [OAUTH_CALLBACK_TIMEOUT]
      /\ logged (trace run) =
           [(Info, With logger "error" "Callback timed out", "oauth request failed")]
      /\ written (trace run) =
           [WriteHeader StatusBadRequest; Encode (EncodeAPIError oauthError)]
      /\ snd (value run) = None)
  /\ (forall t token,
        sender = Some (t, {| CallbackToken := token; CallbackError := None |}) ->
        0 <= t < OAUTH_CALLBACK_TIMEOUT ->
        value wait = (token, None)
        /\ blocked (trace run) = [t]
        /\ logged (trace run) = []
        /\ written (trace run) =
             [WriteHeader StatusCreated; Encode (EncodeToken token)]
        /\ snd (value run) =
             match write_error w with
             | Some e => Some (Wrap e "failed to encode access token")
             | None => None
             end)
  /\ (forall t token err,
        sender = Some (t, {| CallbackToken := token; CallbackError := Some err |}) ->
        0 <= t < OAUTH_CALLBACK_TIMEOUT ->
        value wait = (Token_zero, Some err)
        /\ blocked (trace run) = [t]
        /\ logged (trace run) =
             [(Info, With logger "error" (Error err), "oauth request failed")]
        /\ written (trace run) =
             [WriteHeader StatusBadRequest; Encode (EncodeAPIError oauthError)]
        /\ snd (value run) = None).
Proof.
  intros Hl Hu. cbv zeta. rewrite (Create_after_wait a w r logger req Hl Hu).
  cbv zeta. split; [reflexivity|]. split; [|split; [|split]].
  - pose proof (select_or_timeout_bounded (senders w (make_chan w)) (tie w)
                  OAUTH_CALLBACK_TIMEOUT ltac:(vm_compute; discriminate)) as Hb.
    unfold waitForCallback.
    destruct (select_or_timeout _ _ _) as [d [c|]]; simpl in Hb.
    + exists d. split; [|exact Hb]. destruct (CallbackError c); reflexivity.
    + exists d. split; [reflexivity|exact Hb].
  - intros Hs.
    assert (E : select_or_timeout (senders w (make_chan w)) (tie w)
                  OAUTH_CALLBACK_TIMEOUT = (OAUTH_CALLBACK_TIMEOUT, TimerFired)).
    { destruct Hs as [->|(t & c & -> & Ht)]; [reflexivity|].
      apply select_or_timeout_late. exact Ht. }
    rewrite (waitForCallback_timeout _ _ E). repeat split.
  - intros t token Hs Ht.
    assert (E : select_or_timeout (senders w (make_chan w)) (tie w)
                  OAUTH_CALLBACK_TIMEOUT
                = (t, Received {| CallbackToken := token; CallbackError := None |})).
    { rewrite Hs, select_or_timeout_received by lia. f_equal. lia. }
    rewrite (waitForCallback_received _ _ _ _ E). repeat split.
  - intros t token err Hs Ht.
    assert (E : select_or_timeout (senders w (make_chan w)) (tie w)
                  OAUTH_CALLBACK_TIMEOUT
                = (t, Received {| CallbackToken := token; CallbackError := Some err |})).
    { rewrite Hs, select_or_timeout_received by lia. f_equal. lia. }
    rewrite (waitForCallback_received _ _ _ _ E). repeat split.
Qed.

(** C5.  Whatever the outcome of the wait (a token, an error or the
    timeout) and whatever other requests did to the registry while [Create]
    was blocked, the registry [Create] leaves behind has no entry for its
    state; left alone, it is the registry [Create] found, less that state. *)
Theorem Create_removes_its_slot
    (a : AccessTokens) (w : World) (r : Request)
    (logger : Logger) (req : createAccessTokenRequest) :
  GetLogger r = (logger, None) ->
  UnmarshalPayload (Body r) = (req, None) ->
  let callbacks := fst (value (Create a w r)) in
  callbacks !! State req = None
  /\ ((forall m, meanwhile w m = m) ->
      callbacks = delete (State req) (Callbacks a)).
Proof.
  intros Hl Hu. cbv zeta. rewrite (Create_after_wait a w r logger req Hl Hu).
  cbv zeta. unfold value.
  destruct (waitForCallback w (make_chan w)) as [t [token [err|]]]; cbn [fst snd].
  - split; [apply lookup_delete_eq|].
    intros Hm. rewrite Hm. apply delete_insert_eq.
  - split; [apply lookup_delete_eq|].
    intros Hm. rewrite Hm. apply delete_insert_eq.
Qed.

(** C7.  When the registry has no slot for the callback's state, [Callback]
    returns nil to its caller, sends on no channel, writes nothing, and
    leaves the registry as it was; its one effect is the log entry. *)
Theorem Callback_without_slot_is_noop
    (a : AccessTokens) (receiving : chan -> bool) (r : Request) (logger : Logger) :
  GetLogger r = (logger, None) ->
  Callbacks a !! FormGet r "state" = None ->
  value (Callback a receiving r) = (Callbacks a, Returned None)
  /\ sends (trace (Callback a receiving r)) = []
  /\ trace (Callback a receiving r) =
       [Log Info (With logger "state" (FormGet r "state"))
            "cannot find oauth callback for state"].
Proof.
  intros Hl Hs. unfold routes.Callback. rewrite Hl, Hs. repeat split.
Qed.

(** With a slot registered for its state, [Callback] sends exactly once, on
    that slot: an error alone, or the token [Exchange] returned. *)
Lemma Callback_sends_once (a : AccessTokens) (receiving : chan -> bool)
    (r : Request) (logger : Logger) (slot : chan) :
  GetLogger r = (logger, None) ->
  Callbacks a !! FormGet r "state" = Some slot ->
  exists v,
    sends (trace (Callback a receiving r)) = [(slot, v)]
    /\ (forall e, CallbackError v = Some e -> CallbackToken v = Token_zero)
    /\ (forall token,
          FormGet r "error" = "" -> FormGet r "code" <> "" ->
          Exchange (Client a) (FormGet r "code") = inl token ->
          v = {| CallbackToken := token; CallbackError := None |}).
Proof.
  intros Hl Hs. unfold routes.Callback, chan_send. rewrite Hl, Hs.
  destruct (String.eqb_spec (FormGet r "error") "") as [He|He]; cbn [negb].
  - destruct (String.eqb_spec (FormGet r "code") "") as [Hc|Hc].
    + eexists. split; [destruct (receiving slot); reflexivity|].
      split; [reflexivity|].
      intros token _ Hne. contradiction.
    + destruct (Exchange (Client a) (FormGet r "code")) as [token|err] eqn:Ex.
      * eexists. split; [destruct (receiving slot); reflexivity|].
        split; [discriminate|].
        intros token' _ _ Heq. injection Heq as ->. reflexivity.
      * eexists. split; [destruct (receiving slot); reflexivity|].
        split; [reflexivity|].
        intros token' _ _ Heq. discriminate Heq.
  - eexists. split; [destruct (receiving slot); reflexivity|].
    split; [reflexivity|].
    intros token Hnone. contradiction.
Qed.

Lemma senders_of_single t tr slot v :
  sends tr = [(slot, v)] -> senders_of t tr slot = Some (t, v).
Proof.
  intros H. unfold senders_of. rewrite H. simpl. rewrite Pos.eqb_refl. reflexivity.
Qed.

(** C3.  Let [Create] have registered its slot under a state, and let a
    [Callback] for that state run while [Create] is still blocked.  Then the
    one value [Callback] sends goes to that slot, and the wait of [Create]
    returns its token and its error as they were sent; a token is written to
    the response of [Create] unchanged, and this is the token [Exchange]
    returned to [Callback], whichever it is. *)
Theorem Callback_value_reaches_blocked_Create
    (a : AccessTokens) (w : World) (receiving : chan -> bool)
    (r_create r_callback : Request)
    (logger logger' : Logger) (req : createAccessTokenRequest) (t : Duration) :
  GetLogger r_create = (logger, None) ->
  UnmarshalPayload (Body r_create) = (req, None) ->
  GetLogger r_callback = (logger', None) ->
  FormGet r_callback "state" = State req ->
  0 <= t < OAUTH_CALLBACK_TIMEOUT ->
  let slot := make_chan w in
  let registered :=
    {| Callbacks := <[State req := slot]> (Callbacks a); Client := Client a |} in
  let callback := Callback registered receiving r_callback in
  let w' := {| make_chan := slot; meanwhile := meanwhile w;
               senders := senders_of t (trace callback);
               tie := tie w; write_error := write_error w |} in
  let create := Create a w' r_create in
  exists v,
    sends (trace callback) = [(slot, v)]
    /\ value (waitForCallback w' slot) = (CallbackToken v, CallbackError v)
    /\ (CallbackError v = None ->
        encoded_tokens (trace create) = [CallbackToken v])
    /\ (forall token,
          FormGet r_callback "error" = "" -> FormGet r_callback "code" <> "" ->
          Exchange (Client a) (FormGet r_callback "code") = inl token ->
          v = {| CallbackToken := token; CallbackError := None |}
          /\ encoded_tokens (trace create) = [token]).
Proof.
  intros Hl Hu Hl' Hst Ht. cbv zeta.
  set (registered := {| Callbacks := <[State req := make_chan w]> (Callbacks a);
                        Client := Client a |}).
  destruct (Callback_sends_once registered receiving r_callback logger'
              (make_chan w) Hl')
    as (v & Hsend & Herr & Htok).
  { simpl. rewrite Hst. apply lookup_insert_eq. }
  set (w' := {| make_chan := make_chan w; meanwhile := meanwhile w;
                senders := senders_of t (trace (Callback registered receiving r_callback));
                tie := tie w; write_error := write_error w |}).
  assert (E : select_or_timeout (senders w' (make_chan w')) (tie w')
                OAUTH_CALLBACK_TIMEOUT = (t, Received v)).
  { simpl. rewrite (senders_of_single _ _ _ _ Hsend).
    rewrite select_or_timeout_received by lia. f_equal. lia. }
  assert (Ew : waitForCallback w' (make_chan w)
               = ([Blocked t], (CallbackToken v, CallbackError v))).
  { pose proof (waitForCallback_received w' (make_chan w') t v E) as Hw.
    change (make_chan w') with (make_chan w) in Hw at 1. rewrite Hw.
    destruct (CallbackError v) as [e|] eqn:Ev; [|reflexivity].
    rewrite (Herr e eq_refl). reflexivity. }
  assert (Ec : CallbackError v = None ->
               encoded_tokens (trace (Create a w' r_create)) = [CallbackToken v]).
  { intros Hnone.
    rewrite (Create_after_wait a w' r_create logger req Hl Hu). cbv zeta.
    change (make_chan w') with (make_chan w). rewrite Ew, Hnone. reflexivity. }
  exists v. split; [exact Hsend|]. split; [rewrite Ew; reflexivity|].
  split; [exact Ec|].
  intros token He Hc Hex. specialize (Htok token He Hc Hex). split; [exact Htok|].
  rewrite Ec by (rewrite Htok; reflexivity). rewrite Htok. reflexivity.
Qed.

End AccessTokens.

(** The theorems above, at concrete requests. *)

Lemma Create_waits_for_callback_or_timeout_witness :
  let r := fixtures.create_request in
  let run := Create fixtures.GetLogger fixtures.UnmarshalPayload
               fixtures.invalidJSONError fixtures.oauthError
               fixtures.tokens_empty fixtures.quiet r in
  fixtures.GetLogger r = ([], None)
  /\ fixtures.UnmarshalPayload (Body r) = ({| State := "state-1" |}, None)
  /\ blocked (trace run) = [60 * 1000000000]
  /\ logged (trace run) =
       [(Info, [("error", "Callback timed out")], "oauth request failed")]
  /\ written (trace run) =
       [WriteHeader 400; Encode (EncodeAPIError fixtures.oauthError)].
Proof.
  cbv zeta. split; [reflexivity|]. split; [reflexivity|].
  destruct (Create_waits_for_callback_or_timeout
              fixtures.GetLogger fixtures.UnmarshalPayload
              fixtures.invalidJSONError fixtures.oauthError
              fixtures.tokens_empty fixtures.quiet fixtures.create_request
              [] {| State := "state-1" |} eq_refl eq_refl)
    as (_ & _ & Htimeout & _).
  destruct (Htimeout (or_introl eq_refl)) as (_ & Hb & Hl & He & _).
  split; [exact Hb|]. split; [exact Hl|exact He].
Defined.

(** C2, as claimed, fails: [Create] returns neither a timeout error nor the
    error a callback delivered.  After a minute without a callback, and
    after a callback that delivers the provider's refusal five seconds into
    the wait, [Create] returns nil, and what it has written to the response
    is the same in both runs: status 400 and the fixed OAuth error. *)
Lemma Create_returns_nil_on_timeout_and_on_error :
  let create := Create fixtures.GetLogger fixtures.UnmarshalPayload
                  fixtures.invalidJSONError fixtures.oauthError
                  fixtures.tokens_empty in
  let timed_out := create fixtures.quiet fixtures.create_request in
  let refused := create fixtures.denying fixtures.create_request in
  blocked (trace timed_out) = [OAUTH_CALLBACK_TIMEOUT]
  /\ value (waitForCallback fixtures.quiet 7%positive)
     = (Token_zero, Some (ErrorString "Callback timed out"))
  /\ snd (value timed_out) = None
  /\ blocked (trace refused) = [5 * Second]
  /\ value (waitForCallback fixtures.denying 7%positive)
     = (Token_zero, Some (ErrorString "access_denied"))
  /\ snd (value refused) = None
  /\ written (trace timed_out) = written (trace refused)
  /\ written (trace refused)
     = [WriteHeader 400; Encode (EncodeAPIError fixtures.oauthError)]
  /\ ~ (exists e, snd (value timed_out) = Some e)
  /\ ~ (exists e, snd (value refused) = Some e).
Proof.
  cbv zeta. repeat (split; [vm_compute; reflexivity|]).
  split; intros [e H]; vm_compute in H; discriminate H.
Qed.

Lemma Create_removes_its_slot_witness :
  let r := fixtures.create_request in
  let run := Create fixtures.GetLogger fixtures.UnmarshalPayload
               fixtures.invalidJSONError fixtures.oauthError
               fixtures.tokens_two fixtures.quiet r in
  fixtures.GetLogger r = ([], None)
  /\ fixtures.UnmarshalPayload (Body r) = ({| State := "state-1" |}, None)
  /\ fst (value run) !! "state-1" = None.
Proof.
  cbv zeta. split; [reflexivity|]. split; [reflexivity|].
  exact (proj1 (Create_removes_its_slot
                  fixtures.GetLogger fixtures.UnmarshalPayload
                  fixtures.invalidJSONError fixtures.oauthError
                  fixtures.tokens_two fixtures.quiet fixtures.create_request
                  [] {| State := "state-1" |} eq_refl eq_refl)).
Defined.

Lemma Callback_without_slot_is_noop_witness :
  let a := fixtures.tokens_other in
  let r := fixtures.callback_request in
  fixtures.GetLogger r = ([], None)
  /\ Callbacks a !! FormGet r "state" = None
  /\ value (Callback fixtures.GetLogger a fixtures.nobody_receiving r)
     = (Callbacks a, Returned None)
  /\ sends (trace (Callback fixtures.GetLogger a fixtures.nobody_receiving r)) = [].
Proof.
  cbv zeta.
  assert (Hs : Callbacks fixtures.tokens_other
                 !! FormGet fixtures.callback_request "state" = None)
    by (vm_compute; reflexivity).
  split; [reflexivity|]. split; [exact Hs|].
  destruct (Callback_without_slot_is_noop fixtures.GetLogger
              fixtures.tokens_other fixtures.nobody_receiving
              fixtures.callback_request [] eq_refl Hs)
    as (Hv & Hn & _).
  split; [exact Hv|exact Hn].
Defined.

Lemma Callback_value_reaches_blocked_Create_witness :
  let registered :=
    {| Callbacks := <[ "state-1" := 7%positive ]> (Callbacks fixtures.tokens_empty);
       Client := fixtures.client |} in
  let callback := Callback fixtures.GetLogger registered
                    (fixtures.receiving_on 7%positive) fixtures.callback_request in
  let w' := {| make_chan := 7%positive; meanwhile := fun m => m;
               senders := senders_of (5 * Second) (trace callback);
               tie := false; write_error := None |} in
  encoded_tokens
    (trace (Create fixtures.GetLogger fixtures.UnmarshalPayload
              fixtures.invalidJSONError fixtures.oauthError
              fixtures.tokens_empty w' fixtures.create_request))
  = [fixtures.token].
Proof.
  cbv zeta.
  assert (Hst : FormGet fixtures.callback_request "state" = "state-1")
    by (vm_compute; reflexivity).
  assert (Ht : 0 <= 5 * Second < OAUTH_CALLBACK_TIMEOUT)
    by (vm_compute; split; [discriminate|reflexivity]).
  destruct (Callback_value_reaches_blocked_Create
              fixtures.GetLogger fixtures.UnmarshalPayload
              fixtures.invalidJSONError fixtures.oauthError
              fixtures.tokens_empty fixtures.quiet (fixtures.receiving_on 7%positive)
              fixtures.create_request fixtures.callback_request
              [] [] {| State := "state-1" |} (5 * Second)
              eq_refl eq_refl eq_refl Hst Ht)
    as (v & _ & _ & _ & Htoken).
  refine (proj2 (Htoken fixtures.token _ _ _)).
  - vm_compute; reflexivity.
  - vm_compute; discriminate.
  - vm_compute; reflexivity.
Defined.

End routes_properties.

(** ** The client's choice of the latest image *)

Module client_properties.
Import models client.

Lemma updated_after_strict_weak_order : strict_weak_order updated_after.
Proof.
  unfold strict_weak_order, updated_after, After. repeat split.
  - intros a. apply Z.ltb_irrefl.
  - intros a b c. rewrite !Z.ltb_lt. lia.
  - intros a b c. rewrite !Z.ltb_ge. lia.
Qed.

(** On a list in which no image is updated after one before it, the loop
    returns the first ready image, and no ready image is more recent. *)
Lemma first_ready_latest images : forall image,
  StronglySorted (fun a b => updated_after b a = false) images ->
  (exists i, In i images /\ Ready i = true) ->
  exists img,
    first_ready images image = (img, None)
    /\ In img images /\ Ready img = true
    /\ (forall other, In other images -> Ready other = true ->
                      UpdatedAt other <= UpdatedAt img).
Proof.
  induction images as [|x images IH]; intros image Hs (i & Hin & Hr).
  - destruct Hin.
  - apply StronglySorted_inv in Hs as [Hs Hall]. simpl.
    destruct (Ready x) eqn:Hx.
    + exists x. repeat split; auto.
      intros other [<-|Ho] _; [lia|].
      rewrite Forall_forall in Hall. specialize (Hall other).
      unfold updated_after, After in Hall. rewrite Z.ltb_ge in Hall.
      apply Hall. apply list_elem_of_In. exact Ho.
    + destruct Hin as [->|Hin]; [congruence|].
      destruct (IH image Hs (ex_intro _ i (conj Hin Hr)))
        as (img & Hf & Hi & Hri & Hmax).
      exists img. repeat split; auto.
      intros other [<-|Ho] Hro; [congruence|]. auto.
Qed.

Lemma first_ready_none images : forall image,
  (forall i, In i images -> Ready i = false) ->
  first_ready images image = (image, Some (ErrorString "no images available")).
Proof.
  induction images as [|x images IH]; intros image H; simpl; [reflexivity|].
  rewrite (H x) by (left; reflexivity). apply IH. intros i Hi. apply H. right. exact Hi.
Qed.

Section GetLatestImage.

Variable sort_Slice : (Image -> Image -> bool) -> list Image -> list Image.
Hypothesis sort_Slice_sorts : sorts sort_Slice.

(** C10.  For every listing [ListImages] returns: if some image of the
    listing is ready, [GetLatestImage] succeeds and returns an image of the
    listing that is ready and whose [UpdatedAt] is not before that of any
    ready image of the listing; if none is ready, it fails with the error
    "no images available". *)
Theorem GetLatestImage_latest_ready (images : list Image) :
  let result := snd (GetLatestImage sort_Slice (images, None)) in
  ((exists i, In i images /\ Ready i = true) ->
   exists img,
     result = (img, None)
     /\ In img images /\ Ready img = true
     /\ (forall other, In other images -> Ready other = true ->
                       UpdatedAt other <= UpdatedAt img))
  /\ ((forall i, In i images -> Ready i = false) ->
      result = (models.zero, Some (ErrorString "no images available"))).
Proof.
  cbv zeta. unfold GetLatestImage. cbn [snd].
  destruct (sort_Slice_sorts updated_after images updated_after_strict_weak_order)
    as [Hperm Hsorted].
  split.
  - intros (i & Hin & Hr).
    destruct (first_ready_latest (sort_Slice updated_after images) models.zero Hsorted)
      as (img & Hf & Hi & Hri & Hmax).
    { exists i. split; [|exact Hr].
      eapply Permutation_in; [symmetry; exact Hperm|exact Hin]. }
    exists img. split; [exact Hf|]. split.
    { eapply Permutation_in; [exact Hperm|exact Hi]. }
    split; [exact Hri|].
    intros other Ho. apply Hmax.
    eapply Permutation_in; [symmetry; exact Hperm|exact Ho].
  - intros Hnone. apply first_ready_none.
    intros i Hi. apply Hnone.
    eapply Permutation_in; [exact Hperm|exact Hi].
Qed.

End GetLatestImage.

Lemma insert_sorted_perm {A} (less : A -> A -> bool) x l :
  Permutation (insert_sorted less x l) (x :: l).
Proof.
  induction l as [|y l IH]; simpl; [reflexivity|].
  destruct (less x y); [reflexivity|].
  rewrite IH. apply perm_swap.
Qed.

Lemma insert_sorted_sorted {A} (less : A -> A -> bool) x l :
  strict_weak_order less ->
  StronglySorted (fun a b => less b a = false) l ->
  StronglySorted (fun a b => less b a = false) (insert_sorted less x l).
Proof.
  intros (Hirr & Htr & Hneg). induction 1 as [|y l Hs IH Hall]; simpl.
  - repeat constructor.
  - destruct (less x y) eqn:Hxy.
    + constructor; [constructor; assumption|].
      assert (Hyx : less y x = false).
      { destruct (less y x) eqn:E; [|reflexivity].
        rewrite <- (Hirr x). symmetry. eapply Htr; eassumption. }
      constructor; [exact Hyx|].
      eapply Forall_impl; [exact Hall|]. simpl. intros z Hzy.
      eapply Hneg; eassumption.
    + constructor; [exact IH|].
      eapply Permutation_Forall; [symmetry; apply insert_sorted_perm|].
      constructor; [exact Hxy|exact Hall].
Qed.

Lemma insertion_sort_sorts {A} : sorts (@insertion_sort A).
Proof.
  intros less l Hswo. split.
  - induction l as [|x l IH]; simpl; [reflexivity|].
    rewrite insert_sorted_perm. apply perm_skip, IH.
  - induction l as [|x l IH]; simpl; [constructor|].
    apply insert_sorted_sorted; assumption.
Qed.

(** The theorem, for insertion sort, on a listing of three images. *)
Lemma GetLatestImage_latest_ready_witness :
  let old := {| ID := 1; BackedUpAt := 10; Ready := true; Anon := "";
                CreatedAt := 10; UpdatedAt := 20 |} in
  let latest := {| ID := 2; BackedUpAt := 30; Ready := true; Anon := "";
                   CreatedAt := 30; UpdatedAt := 40 |} in
  let unready := {| ID := 3; BackedUpAt := 50; Ready := false; Anon := "";
                    CreatedAt := 50; UpdatedAt := 60 |} in
  sorts (@insertion_sort Image)
  /\ exists img,
       snd (GetLatestImage (@insertion_sort Image)
              ([old; unready; latest], None)) = (img, None)
       /\ UpdatedAt img = 40.
Proof.
  cbv zeta. split; [exact insertion_sort_sorts|].
  destruct (proj1 (GetLatestImage_latest_ready
                     (@insertion_sort Image) insertion_sort_sorts
                     [ {| ID := 1; BackedUpAt := 10; Ready := true; Anon := "";
                          CreatedAt := 10; UpdatedAt := 20 |};
                       {| ID := 3; BackedUpAt := 50; Ready := false; Anon := "";
                          CreatedAt := 50; UpdatedAt := 60 |};
                       {| ID := 2; BackedUpAt := 30; Ready := true; Anon := "";
                          CreatedAt := 30; UpdatedAt := 40 |} ]))
    as (img & Hres & _).
  - eexists. split; [right; right; left; reflexivity|reflexivity].
  - exists img. split; [exact Hres|].
    vm_compute in Hres. injection Hres as <-. reflexivity.
Defined.

End client_properties.

(** ** The provisioning script *)

Module provision_properties.
Import provision.

Ltac run_sh :=
  unfold must_fail, must_succeed, substitution, die_and_stop, simple, run,
    echo, exit, mbind, Sh_bind, mret, Sh_ret in *; simpl in *.

Lemma simple_all_started m cs :
  Forall (fun c => status m c = 0) cs ->
  simple_all m cs = (map Run cs, inl tt).
Proof.
  induction 1 as [|c cs Hc _ IH]; [reflexivity|].
  cbn [simple_all]. rewrite IH. run_sh. rewrite Hc. reflexivity.
Qed.

(** A setup that does not complete runs setup commands only, and exits
    with the status of the one that failed. *)
Lemma simple_all_stopped m cs :
  ~ Forall (fun c => status m c = 0) cs ->
  exists pre code,
    simple_all m cs = (map Run pre, inr code)
    /\ code <> 0 /\ (forall c, In c pre -> In c cs).
Proof.
  induction cs as [|c cs IH]; intros Hn.
  - exfalso. apply Hn. constructor.
  - cbn [simple_all]. destruct (Z.eqb_spec (status m c) 0) as [Hc|Hc].
    + destruct IH as (pre & code & Hs & Hcode & Hpre).
      { intros Hall. apply Hn. constructor; assumption. }
      exists (c :: pre), code. rewrite Hs. run_sh. rewrite Hc. simpl.
      split; [reflexivity|]. split; [exact Hcode|].
      intros c' [<-|Hin]; [left; reflexivity|right; auto].
    + exists [c], (status m c). run_sh.
      destruct (Z.eqb_spec (status m c) 0); [contradiction|].
      split; [reflexivity|]. split; [exact Hc|].
      intros c' [<-|[]]. left; reflexivity.
Qed.

Lemma verify_verified m :
  verified m -> verify m = (verify_passed, inl tt).
Proof.
  unfold verified, refuses_non_tls, refuses_no_client_cert, accepts_client,
    usesuper_reads_f, refuses_user_postgres.
  intros (H1 & H2 & H3 & [H4 H4'] & H5). unfold verify. run_sh.
  apply Z.eqb_neq in H1, H2, H5. rewrite H1, H2, H3, H4, H4', H5. simpl.
  rewrite H1, H2, H5. reflexivity.
Qed.

Ltac sh_rewrite :=
  repeat match goal with
         | E : (_ =? _) = _ |- _ => rewrite E
         | E : negb _ = _ |- _ => rewrite E
         end.

Ltac sh_eval :=
  unfold must_fail, must_succeed, substitution, die_and_stop, simple, run,
    echo, exit, mbind, Sh_bind, mret, Sh_ret;
  repeat (progress (sh_rewrite; cbn [fst snd app andb negb])).

Ltac stop_leaf :=
  sh_eval;
  eexists; eexists; split; [reflexivity|];
  split; [first [discriminate | assumption]|];
  split; [reflexivity|];
  split; intros Hin; simpl in Hin; intuition discriminate.

(** When some check does not hold, the checks end in [pg_ctl stop] and a
    non-zero exit, with nothing but checks and messages before. *)
Lemma verify_unverified m :
  ~ verified m ->
  exists t code,
    verify m = (t, inr code)
    /\ code <> 0
    /\ last t = Some (Run PgCtlStop)
    /\ ~ In (Run RmAutoConf) t
    /\ ~ In (Run PgCtlRestart) t.
Proof.
  intros Hn. unfold verify.
  assert (Hstop : (status m PgCtlStop =? 0) = true \/
                  ((status m PgCtlStop =? 0) = false /\ status m PgCtlStop <> 0)).
  { destruct (Z.eqb_spec (status m PgCtlStop) 0); auto. }
  remember (String.eqb (usesuper m) "f") as isf eqn:Eisf.
  destruct (status m PsqlNoTLS =? 0) eqn:E1; [stop_leaf|].
  destruct (status m PsqlNoClientCert =? 0) eqn:E2; [stop_leaf|].
  destruct (status m (PsqlClientCert "draupnir") =? 0) eqn:E3;
    [|destruct Hstop as [Es|[Es Hs]]; stop_leaf].
  destruct (status m PsqlUseSuper =? 0) eqn:E4; [|stop_leaf].
  destruct isf;
    [|destruct Hstop as [Es|[Es Hs]]; stop_leaf].
  destruct (status m (PsqlClientCert "postgres") =? 0) eqn:E5; [stop_leaf|].
  exfalso. apply Hn. unfold verified, refuses_non_tls, refuses_no_client_cert,
    accepts_client, usesuper_reads_f, refuses_user_postgres.
  apply Z.eqb_neq in E1, E2, E5. apply Z.eqb_eq in E3, E4.
  symmetry in Eisf. apply String.eqb_eq in Eisf. tauto.
Qed.

Lemma verified_or_not m : verified m \/ ~ verified m.
Proof.
  unfold verified, refuses_non_tls, refuses_no_client_cert, accepts_client,
    usesuper_reads_f, refuses_user_postgres.
  destruct (Z.eq_dec (status m PsqlNoTLS) 0); [tauto|].
  destruct (Z.eq_dec (status m PsqlNoClientCert) 0); [tauto|].
  destruct (Z.eq_dec (status m (PsqlClientCert "draupnir")) 0); [|tauto].
  destruct (Z.eq_dec (status m PsqlUseSuper) 0); [|tauto].
  destruct (String.eqb_spec (usesuper m) "f"); [|tauto].
  destruct (Z.eq_dec (status m (PsqlClientCert "postgres")) 0); tauto.
Qed.

Lemma started_or_not m : started m \/ ~ started m.
Proof.
  unfold started. induction setup as [|c cs IH]; [left; constructor|].
  destruct (Z.eq_dec (status m c) 0) as [Hc|Hc].
  - destruct IH as [IH|IH]; [left; constructor; assumption|].
    right. intros H. inversion H; subst. contradiction.
  - right. intros H. inversion H; subst. contradiction.
Qed.

(** The script with four arguments, by its three parts. *)
Lemma create_instance_parts m args :
  length args = 4%nat ->
  create_instance m args =
    match simple_all m setup with
    | (t1, inr code) => (t1, code)
    | (t1, inl _) =>
        match verify m with
        | (t2, inr code) => (t1 ++ t2, code)
        | (t2, inl _) =>
            match expose m with
            | (t3, inr code) => (t1 ++ t2 ++ t3, code)
            | (t3, inl _) => (t1 ++ t2 ++ t3, 0)
            end
        end
    end.
Proof.
  intros Hlen. unfold create_instance. rewrite Hlen. cbn [Z.of_nat Z.eqb Pos.eqb].
  unfold mbind, Sh_bind, mret, Sh_ret.
  destruct (simple_all m setup) as [t1 [[]|c1]]; cbn [app]; [|reflexivity].
  destruct (verify m) as [t2 [[]|c2]]; [|reflexivity].
  destruct (expose m) as [t3 [[]|c3]]; reflexivity.
Qed.

Lemma expose_cases m :
  exists after r, expose m = (Run RmAutoConf :: after, r)
    /\ (after = [] \/ after = [Run PgCtlRestart])
    /\ (status m RmAutoConf = 0 -> status m PgCtlRestart = 0 ->
        after = [Run PgCtlRestart] /\ r = inl tt).
Proof.
  unfold expose.
  destruct (Z.eqb_spec (status m RmAutoConf) 0) as [H1|H1].
  - destruct (Z.eqb_spec (status m PgCtlRestart) 0) as [H2|H2].
    + exists [Run PgCtlRestart], (inl tt). sh_eval. rewrite H1, H2. simpl. auto.
    + exists [Run PgCtlRestart], (inr (status m PgCtlRestart)). sh_eval.
      rewrite H1. simpl.
      destruct (Z.eqb_spec (status m PgCtlRestart) 0); [contradiction|].
      split; [reflexivity|]. split; [auto|]. intros; contradiction.
  - exists [], (inr (status m RmAutoConf)). sh_eval.
    destruct (Z.eqb_spec (status m RmAutoConf) 0); [contradiction|].
    split; [reflexivity|]. split; [auto|]. intros; contradiction.
Qed.

(** The connections with the client certificate that a run makes are the
    two of the script: as [draupnir] and as [postgres]. *)
Lemma verify_probes m user :
  In (Run (PsqlClientCert user)) (fst (verify m)) ->
  user = "draupnir" \/ user = "postgres".
Proof.
  unfold verify.
  remember (String.eqb (usesuper m) "f") as isf eqn:Eisf.
  destruct (status m PsqlNoTLS =? 0) eqn:E1;
  [|destruct (status m PsqlNoClientCert =? 0) eqn:E2;
    [|destruct (status m (PsqlClientCert "draupnir") =? 0) eqn:E3;
      [destruct (status m PsqlUseSuper =? 0) eqn:E4;
       [destruct isf;
        [destruct (status m (PsqlClientCert "postgres") =? 0) eqn:E5|]|]|]]];
    sh_eval; try destruct (status m PgCtlStop =? 0); sh_eval;
    cbn [fst List.filter captured negb Z.eqb Pos.eqb app];
    intros Hin; simpl in Hin;
    repeat (destruct Hin as [Hin|Hin];
            [first [discriminate Hin | injection Hin as <-; auto]|]);
    destruct Hin.
Qed.

(** C9, as claimed, fails: the script enables listening on a machine that
    lets in an identity other than the provisioned client.  The machine
    turns away [postgres], the one other user the script tries; it lets in
    user [replication] with the client certificate, and the script removes
    the restriction to localhost, restarts the instance and exits with
    status 0. *)
Lemma listening_enabled_with_another_identity_accepted :
  let m := fixtures.postgres_only_machine in
  let run := create_instance m ["/draupnir"; "9"; "999"; "6543"] in
  listening_enabled (fst run)
  /\ snd run = 0
  /\ status m (PsqlClientCert "replication") = 0
  /\ ~ refuses_every_other_identity m.
Proof.
  cbv zeta. split; [|split; [|split]].
  - split; vm_compute; tauto.
  - vm_compute. reflexivity.
  - vm_compute. reflexivity.
  - intros H. apply (H "replication"); [discriminate|]. vm_compute. reflexivity.
Qed.

(** C9, amended.  In a run of the script, [postgresql.auto.conf], which
    keeps the instance on localhost, is removed, and the instance restarted,
    only when the probes of the script have come out as it requires: the
    connection without TLS has failed, the connection with TLS and no client
    certificate has failed, the connection with the client certificate as
    [draupnir] has succeeded, the query for [usesuper] of the connected user
    has succeeded and printed [f], and the connection with the client
    certificate as [postgres] has failed; no other user is tried.  The
    removal comes after the setup and all the probes, the restart after the
    removal, and [pg_ctl stop] is not run.  When the instance has been
    started and some probe comes out otherwise, the script exits with a
    non-zero status, the last thing it does is [pg_ctl stop], and it neither
    removes the restriction nor restarts.  When it has been started and
    every probe comes out as required, the removal and the restart are what
    remains to run. *)
Theorem listening_enabled_only_after_checks (m : Machine) (args : list string) :
  let t := fst (create_instance m args) in
  let code := snd (create_instance m args) in
  (In (Run RmAutoConf) t \/ In (Run PgCtlRestart) t ->
   refuses_non_tls m /\ refuses_no_client_cert m /\ accepts_client m
   /\ usesuper_reads_f m /\ refuses_user_postgres m
   /\ ~ In (Run PgCtlStop) t
   /\ exists after,
        t = (map Run setup ++ verify_passed) ++ Run RmAutoConf :: after
        /\ (after = [] \/ after = [Run PgCtlRestart]))
  /\ (forall user, In (Run (PsqlClientCert user)) t ->
        user = "draupnir" \/ user = "postgres")
  /\ (length args = 4%nat -> started m -> ~ verified m ->
      code <> 0
      /\ last t = Some (Run PgCtlStop)
      /\ ~ In (Run RmAutoConf) t /\ ~ In (Run PgCtlRestart) t)
  /\ (length args = 4%nat -> started m -> verified m ->
      status m RmAutoConf = 0 -> status m PgCtlRestart = 0 ->
      t = (map Run setup ++ verify_passed) ++ [Run RmAutoConf; Run PgCtlRestart]
      /\ code = 0).
Proof.
  cbv zeta. split; [|split; [|split]].
  - destruct (Nat.eq_dec (length args) 4%nat) as [Hlen|Hlen].
    2:{ unfold create_instance.
        destruct (Z.eqb_spec (Z.of_nat (length args)) 4) as [E|_]; [lia|].
        simpl. intros [[H|[]]|[H|[]]]; discriminate H. }
    rewrite (create_instance_parts m args Hlen).
    destruct (started_or_not m) as [Hst|Hst].
    2:{ destruct (simple_all_stopped m setup Hst) as (pre & c & -> & _ & Hpre).
        cbn [fst]. intros [H|H]; apply in_map_iff in H as (c0 & Hc0 & Hin);
          injection Hc0 as ->; apply Hpre in Hin; simpl in Hin;
          intuition discriminate. }
    rewrite (simple_all_started m setup Hst).
    destruct (verified_or_not m) as [Hv|Hv].
    2:{ destruct (verify_unverified m Hv) as (t2 & c & -> & _ & _ & Hrm & Hrs).
        cbn [fst]. intros [H|H]; apply in_app_or in H as [H|H];
          try contradiction; simpl in H; intuition discriminate. }
    rewrite (verify_verified m Hv).
    destruct (expose_cases m) as (after & r & -> & Hafter & _).
    intros _. destruct Hv as (H1 & H2 & H3 & H4 & H5).
    do 5 (split; [assumption|]).
    assert (Ht : fst (match r with
                      | inl _ => (map Run setup ++ verify_passed ++ Run RmAutoConf :: after, 0)
                      | inr c => (map Run setup ++ verify_passed ++ Run RmAutoConf :: after, c)
                      end)
                 = (map Run setup ++ verify_passed) ++ Run RmAutoConf :: after).
    { destruct r as [[]|c]; cbn [fst]; rewrite <- app_assoc; reflexivity. }
    rewrite Ht. split.
    + destruct Hafter as [->| ->]; simpl; intuition discriminate.
    + exists after. split; [reflexivity|exact Hafter].
  - intros user.
    destruct (Nat.eq_dec (length args) 4%nat) as [Hlen|Hlen].
    2:{ unfold create_instance.
        destruct (Z.eqb_spec (Z.of_nat (length args)) 4) as [E|_]; [lia|].
        simpl. intros [H|[]]. discriminate H. }
    rewrite (create_instance_parts m args Hlen).
    pose proof (verify_probes m user) as Hprobe.
    assert (Hsetup : forall pre, (forall c, In c pre -> In c setup) ->
                                 ~ In (Run (PsqlClientCert user)) (map Run pre)).
    { intros pre Hpre Hin. apply in_map_iff in Hin as (c0 & Hc0 & Hin).
      injection Hc0 as ->. apply Hpre in Hin. simpl in Hin.
      intuition discriminate. }
    destruct (started_or_not m) as [Hst|Hst].
    2:{ destruct (simple_all_stopped m setup Hst) as (pre & c & -> & _ & Hpre).
        cbn [fst]. intros H. exfalso. exact (Hsetup pre Hpre H). }
    rewrite (simple_all_started m setup Hst).
    destruct (verify m) as [t2 [[]|c2]]; cbn [fst] in Hprobe |- *.
    + destruct (expose_cases m) as (after & r & -> & Hafter & _).
      intros H.
      assert (Hin : In (Run (PsqlClientCert user))
                       (map Run setup ++ t2 ++ Run RmAutoConf :: after)).
      { destruct r as [[]|c]; exact H. }
      apply in_app_or in Hin as [Hin|Hin];
        [exfalso; exact (Hsetup setup (fun _ H0 => H0) Hin)|].
      apply in_app_or in Hin as [Hin|Hin]; [exact (Hprobe Hin)|].
      exfalso. destruct Hafter as [-> | ->]; simpl in Hin; intuition discriminate.
    + intros H. apply in_app_or in H as [Hin|Hin];
        [exfalso; exact (Hsetup setup (fun _ H0 => H0) Hin)|exact (Hprobe Hin)].
  - intros Hlen Hst Hv.
    rewrite (create_instance_parts m args Hlen), (simple_all_started m setup Hst).
    destruct (verify_unverified m Hv) as (t2 & c & -> & Hc & Hlast & Hrm & Hrs).
    cbn [fst snd]. split; [exact Hc|]. split; [|split].
    + rewrite last_app, Hlast. reflexivity.
    + intros H. apply in_app_or in H as [H|H]; [|contradiction].
      simpl in H. intuition discriminate.
    + intros H. apply in_app_or in H as [H|H]; [|contradiction].
      simpl in H. intuition discriminate.
  - intros Hlen Hst Hv Hrm Hrs.
    rewrite (create_instance_parts m args Hlen), (simple_all_started m setup Hst),
      (verify_verified m Hv).
    destruct (expose_cases m) as (after & r & -> & _ & Hok).
    destruct (Hok Hrm Hrs) as [-> ->]. cbn [fst snd].
    rewrite <- app_assoc. split; reflexivity.
Qed.

(** The script on two machines. *)
Example create_instance_open_machine :
  create_instance fixtures.open_machine ["/draupnir"; "9"; "999"; "6543"]
  = (map Run setup ++
       [Run PsqlNoTLS;
        Echo 2 "ERROR: Able to connect via non-TLS connection";
        Echo 1 "Stopping instance";
        Run PgCtlStop],
     1).
Proof. vm_compute. reflexivity. Qed.

Example create_instance_hardened_machine :
  create_instance fixtures.hardened_machine ["/draupnir"; "9"; "999"; "6543"]
  = (map Run setup ++ verify_passed ++ [Run RmAutoConf; Run PgCtlRestart], 0).
Proof. vm_compute. reflexivity. Qed.

(** A machine on which the query for [usesuper] fails: the line
    [die_and_stop] echoes to standard output inside the substitution is
    captured, the instance is stopped, and the script exits with status 1. *)
Example create_instance_unreadable_usesuper :
  create_instance
    {| status := fun c => match c with
                          | PsqlNoTLS | PsqlNoClientCert => 2
                          | PsqlUseSuper => 1
                          | _ => 0
                          end;
       usesuper := "" |}
    ["/draupnir"; "9"; "999"; "6543"]
  = (map Run setup ++
       [Run PsqlNoTLS; Echo 1 "INFO: Not able to connect via non-TLS connection";
        Run PsqlNoClientCert;
        Echo 1 "INFO: Not able to connect without client certificate";
        Run (PsqlClientCert "draupnir");
        Run PsqlUseSuper;
        Echo 2 "ERROR: Unable to check superuser status";
        Run PgCtlStop],
     1).
Proof. vm_compute. reflexivity. Qed.

End provision_properties.

(** * Further properties *)

(** ** The image store: deletion, the key, and how the calls compose *)

Module store_laws.
Import models store store_properties.

Lemma filter_where_id_other i j rs :
  i <> j ->
  List.filter (where_id i) (List.filter (fun r => negb (where_id j r)) rs)
  = List.filter (where_id i) rs.
Proof.
  intros Hij. induction rs as [|r rs IH]; simpl; [reflexivity|].
  destruct (where_id j r) eqn:Ej; destruct (where_id i r) eqn:Ei; simpl;
    rewrite ?Ei; try (f_equal; exact IH); try exact IH.
  unfold where_id in Ej, Ei. apply Z.eqb_eq in Ej, Ei. congruence.
Qed.

Lemma filter_negb_where_id_absent j rs :
  ~ In j (map id rs) -> List.filter (fun r => negb (where_id j r)) rs = rs.
Proof.
  induction rs as [|r rs IH]; simpl; intros H; [reflexivity|].
  destruct (where_id j r) eqn:Ej; simpl.
  - exfalso. apply H. left. unfold where_id in Ej. apply Z.eqb_eq. exact Ej.
  - f_equal. apply IH. intros Hin. apply H. right. exact Hin.
Qed.

Lemma filter_sublist (p : Row -> bool) rs : sublist (List.filter p rs) rs.
Proof.
  induction rs as [|r rs IH]; simpl; [constructor|].
  destruct (p r); [apply sublist_skip|apply sublist_cons]; exact IH.
Qed.

(** X1.  [Destroy] returns the answer of the database to its DELETE, as it
    is.  When the database refuses the statement the table is left as it
    was.  When it executes it, every row with the image's id is removed and
    no other, the rows that remain keep their order, and the id sequence
    stays where it was; afterwards [Get] of that id fails with
    [sql.ErrNoRows] and [Get] of any other id answers as before; and when no
    row had the id the database is left as it was. *)
Theorem Destroy_removes_the_id (s : DB) (refused : option error) (image : Image) :
  let s' := fst (Destroy s refused image) in
  snd (Destroy s refused image) = refused
  /\ (forall e, refused = Some e -> s' = s)
  /\ (refused = None ->
      (forall r, In r (images s') <-> In r (images s) /\ id r <> ID image)
      /\ sublist (images s') (images s)
      /\ (exists gone, Permutation (images s) (gone ++ images s')
                       /\ Forall (fun r => id r = ID image) gone)
      /\ Get s' (ID image) = (models.zero, Some ErrNoRows)
      /\ (forall i, i <> ID image -> Get s' i = Get s i)
      /\ (~ In (ID image) (map id (images s)) -> s' = s))
  /\ images_id_seq s' = images_id_seq s.
Proof.
  cbv zeta. unfold Destroy, Exec_delete.
  destruct refused as [e|]; cbn [fst snd images images_id_seq].
  { split; [reflexivity|]. split; [reflexivity|]. split; [discriminate|reflexivity]. }
  split; [reflexivity|]. split; [discriminate|]. split; [intros _|reflexivity].
  split; [|split; [|split; [|split; [|split]]]].
  - intros r. rewrite filter_In. unfold where_id.
    rewrite negb_true_iff, Z.eqb_neq. reflexivity.
  - apply filter_sublist.
  - exists (List.filter (where_id (ID image)) (images s)). split.
    + induction (images s) as [|r rs IH]; simpl; [reflexivity|].
      destruct (where_id (ID image) r); simpl.
      * apply perm_skip, IH.
      * rewrite IH at 1. apply Permutation_middle.
    + apply Forall_forall. intros r Hr. apply list_elem_of_In, filter_In in Hr.
      destruct Hr as [_ Hr]. unfold where_id in Hr. apply Z.eqb_eq. exact Hr.
  - unfold Get. cbn [images].
    assert (E : List.filter (where_id (ID image))
                  (List.filter (fun r => negb (where_id (ID image) r)) (images s)) = []).
    { induction (images s) as [|r rs IH]; simpl; [reflexivity|].
      destruct (where_id (ID image) r) eqn:Er; simpl; [exact IH|].
      rewrite Er. exact IH. }
    rewrite E. reflexivity.
  - intros i Hi. unfold Get. cbn [images].
    rewrite filter_where_id_other by exact Hi. reflexivity.
  - intros Habs. rewrite filter_negb_where_id_absent by exact Habs.
    destruct s; reflexivity.
Qed.

Lemma update_ready_ids now i rdy rs :
  map id (update_ready now i rdy rs) = map id rs.
Proof.
  unfold update_ready. induction rs as [|r rs IH]; simpl; [reflexivity|].
  rewrite IH. destruct (where_id_ready i rdy r); reflexivity.
Qed.

Lemma update_ready_kept now i rdy rs :
  map kept_columns (update_ready now i rdy rs) = map kept_columns rs.
Proof.
  unfold update_ready. induction rs as [|r rs IH]; simpl; [reflexivity|].
  rewrite IH. destruct (where_id_ready i rdy r); reflexivity.
Qed.

Lemma NoDup_ids_filter (p : Row -> bool) rs :
  List.NoDup (map id rs) -> List.NoDup (map id (List.filter p rs)).
Proof.
  induction rs as [|r rs IH]; simpl; intros H; [constructor|].
  inversion H as [|x xs Hnot Hnd]; subst.
  destruct (p r); simpl; [|auto].
  constructor; [|auto]. intros Hin. apply Hnot.
  apply in_map_iff in Hin as (r0 & E & Hr0). apply filter_In in Hr0 as [Hr0 _].
  rewrite <- E. apply in_map. exact Hr0.
Qed.

Lemma keyed_Create s image : keyed s -> keyed (fst (Create s image)).
Proof.
  intros [Hnd Hlt]. unfold keyed, Create. cbn [fst images images_id_seq]. split.
  - rewrite map_app. cbn [map id].
    apply List.NoDup_app; [exact Hnd|repeat constructor; intros []|].
    intros x Hx [<-|[]]. apply in_map_iff in Hx as (r & E & Hr).
    rewrite Forall_forall in Hlt. specialize (Hlt r (proj2 (list_elem_of_In _ _) Hr)).
    simpl in Hlt. lia.
  - apply Forall_app. split.
    + eapply Forall_impl; [exact Hlt|]. simpl. intros; lia.
    + repeat constructor. simpl. lia.
Qed.

Lemma keyed_MarkAsReady s now image : keyed s -> keyed (fst (MarkAsReady s now image)).
Proof.
  intros [Hnd Hlt]. unfold keyed. rewrite MarkAsReady_images, update_ready_ids.
  split; [exact Hnd|].
  assert (Hseq : images_id_seq (fst (MarkAsReady s now image)) = images_id_seq s).
  { unfold MarkAsReady. destruct (update_returning _ _ _ _); reflexivity. }
  rewrite Hseq. apply Forall_forall. intros r Hr.
  apply list_elem_of_In in Hr.
  assert (Hid : In (id r) (map id (images s))).
  { rewrite <- (update_ready_ids now (ID image) (Ready image)). apply in_map. exact Hr. }
  apply in_map_iff in Hid as (r0 & E & Hr0). rewrite <- E.
  rewrite Forall_forall in Hlt. apply Hlt, list_elem_of_In. exact Hr0.
Qed.

Lemma keyed_Destroy s refused image :
  keyed s -> keyed (fst (Destroy s refused image)).
Proof.
  intros [Hnd Hlt]. unfold keyed, Destroy, Exec_delete.
  destruct refused as [e|]; cbn [fst images images_id_seq]; [split; assumption|].
  split.
  - apply NoDup_ids_filter. exact Hnd.
  - apply Forall_forall. intros r Hr. apply list_elem_of_In, filter_In in Hr.
    rewrite Forall_forall in Hlt. apply Hlt, list_elem_of_In. tauto.
Qed.

Lemma keyed_after_call s c : keyed s -> keyed (after_call s c).
Proof.
  intros Hk. destruct c; simpl.
  - apply keyed_Create, Hk.
  - apply keyed_MarkAsReady, Hk.
  - apply keyed_Destroy, Hk.
Qed.

(** X2.  Starting from a table in which [id] is a key and the sequence is
    ahead of the ids in use, any sequence of [Create], [MarkAsReady] and
    [Destroy] calls leaves a table of the same kind; so the id a further
    [Create] assigns is one no row has, also after the row with the highest
    id has been destroyed. *)
Theorem id_stays_a_key (s : DB) (calls : list Call) (image : Image) :
  keyed s ->
  let s' := after_calls s calls in
  keyed s'
  /\ ~ In (ID (fst (snd (Create s' image)))) (map id (images s'))
  /\ images_id_seq s <= images_id_seq s'.
Proof.
  intros Hk. cbv zeta. unfold after_calls.
  revert s Hk. induction calls as [|c calls IH]; intros s Hk; simpl.
  - split; [exact Hk|]. split; [|lia].
    destruct Hk as [_ Hlt]. intros Hin. apply in_map_iff in Hin as (r & E & Hr).
    rewrite Forall_forall in Hlt. specialize (Hlt r (proj2 (list_elem_of_In _ _) Hr)).
    lia.
  - destruct (IH (after_call s c) (keyed_after_call s c Hk)) as (H1 & H2 & H3).
    split; [exact H1|]. split; [exact H2|].
    assert (Hseq : images_id_seq s <= images_id_seq (after_call s c)).
    { destruct c as [image0|now image0|[e|] image0]; simpl; try lia.
      unfold MarkAsReady. destruct (update_returning _ _ _ _); simpl; lia. }
    lia.
Qed.

Lemma id_stays_a_key_witness :
  let s := {| images := [ {| id := 1; backed_up_at := 10; ready := false;
                             anon := "CREATE DATABASE foo;";
                             created_at := 11; updated_at := 12 |} ];
              images_id_seq := 2 |} in
  let image := {| ID := 0; BackedUpAt := 30; Ready := false; Anon := "";
                  CreatedAt := 31; UpdatedAt := 31 |} in
  let calls := [CallCreate image; CallDestroy None (fst (snd (Create s image)));
                CallMarkAsReady 40 {| ID := 1; BackedUpAt := 10; Ready := false;
                                      Anon := ""; CreatedAt := 11; UpdatedAt := 12 |}] in
  keyed s /\ keyed (after_calls s calls)
  /\ images_id_seq (after_calls s calls) = 3.
Proof.
  cbv zeta.
  assert (Hk : keyed {| images := [ {| id := 1; backed_up_at := 10; ready := false;
                                       anon := "CREATE DATABASE foo;";
                                       created_at := 11; updated_at := 12 |} ];
                        images_id_seq := 2 |}).
  { split; simpl; repeat constructor; simpl; try lia; intros []. }
  split; [exact Hk|]. split; [|reflexivity].
  exact (proj1 (id_stays_a_key _ _ models.zero Hk)).
Defined.

(** X3.  [MarkAsReady] writes to two columns only.  Whether it succeeds or
    not, every row keeps its id, [backed_up_at], [anon] and [created_at],
    the rows keep their number and order, and the id sequence does not
    move; a row with another id is left exactly as it was, and [Get] of any
    other id answers as before. *)
Theorem MarkAsReady_writes_ready_and_updated_at_only
    (s : DB) (now : Time) (image : Image) :
  let s' := fst (MarkAsReady s now image) in
  map kept_columns (images s') = map kept_columns (images s)
  /\ images_id_seq s' = images_id_seq s
  /\ Forall2 (fun r r' => id r <> ID image -> r' = r) (images s) (images s')
  /\ (forall i, i <> ID image -> Get s' i = Get s i).
Proof.
  cbv zeta. rewrite MarkAsReady_images.
  split; [apply update_ready_kept|].
  split; [unfold MarkAsReady; destruct (update_returning _ _ _ _); reflexivity|].
  split.
  - unfold update_ready. induction (images s) as [|r rs IH]; simpl; constructor; auto.
    intros Hne. destruct (where_id_ready (ID image) (Ready image) r) eqn:E;
      [|reflexivity].
    apply where_id_ready_true in E. tauto.
  - intros i Hi. unfold Get. rewrite MarkAsReady_images. unfold update_ready.
    assert (E : List.filter (where_id i)
                  (map (fun r => if where_id_ready (ID image) (Ready image) r
                                 then set_ready now r else r) (images s))
                = List.filter (where_id i) (images s)).
    { induction (images s) as [|r rs IH]; simpl; [reflexivity|].
      destruct (where_id_ready (ID image) (Ready image) r) eqn:E.
      - apply where_id_ready_true in E. destruct E as [Eid _].
        change (where_id i (set_ready now r)) with (where_id i r).
        assert (Ei : where_id i r = false)
          by (unfold where_id; apply Z.eqb_neq; congruence).
        rewrite Ei. exact IH.
      - destruct (where_id i r); [f_equal|]; exact IH. }
    rewrite E. reflexivity.
Qed.

Lemma update_returning_unique now image r rs :
  List.NoDup (map id rs) -> In r rs -> addressed image r ->
  update_returning now (ID image) (Ready image) rs = [set_ready now r].
Proof.
  intros Hnd Hin [Hid Hrd]. unfold update_returning.
  induction rs as [|r' rs IH]; [destruct Hin|].
  inversion Hnd as [|x xs Hnot Hnd']; subst. simpl.
  destruct (where_id_ready (ID image) (Ready image) r') eqn:E.
  - apply where_id_ready_true in E. destruct E as [Eid Erd].
    assert (r' = r) as ->.
    { destruct Hin as [->|Hin]; [reflexivity|]. exfalso. apply Hnot.
      rewrite Eid, <- Hid. apply in_map. exact Hin. }
    simpl. f_equal.
    assert (Hnone : List.filter (where_id_ready (ID image) (Ready image)) rs = []).
    { clear IH Hin Hnd. induction rs as [|a rs IH]; simpl; [reflexivity|].
      destruct (where_id_ready (ID image) (Ready image) a) eqn:Ea.
      - apply where_id_ready_true in Ea. exfalso. apply Hnot. left.
        destruct Ea as [Ea _]. congruence.
      - apply IH. { intros H. apply Hnot. right. exact H. }
        inversion Hnd' as [|y ys Hy Hys]; subst. exact Hys. }
    rewrite Hnone. reflexivity.
  - destruct Hin as [->|Hin].
    + apply where_id_ready_false in E. tauto.
    + apply IH; assumption.
Qed.

(** X4.  With [id] a key, a [MarkAsReady] that addresses a stored row
    returns that row's id, [backed_up_at] and [created_at] as stored,
    [Ready] true and [UpdatedAt] the time of the update, and keeps the
    [Anon] of its argument rather than the stored one; a [Get] of the id
    then returns the row with [ready] true, the new [updated_at] and the
    stored [anon].  This holds as well when the row was ready already and
    the caller presents [Ready] true: the call succeeds once more and moves
    [updated_at]. *)
Theorem MarkAsReady_then_Get (s : DB) (now : Time) (image : Image) (r : Row) :
  List.NoDup (map id (images s)) ->
  In r (images s) ->
  addressed image r ->
  let s' := fst (MarkAsReady s now image) in
  snd (MarkAsReady s now image)
    = ({| ID := id r; BackedUpAt := backed_up_at r; Ready := true;
          Anon := Anon image; CreatedAt := created_at r; UpdatedAt := now |},
       None)
  /\ Get s' (ID image)
     = ({| ID := id r; BackedUpAt := backed_up_at r; Ready := true;
           Anon := anon r; CreatedAt := created_at r; UpdatedAt := now |},
        None).
Proof.
  intros Hnd Hin Haddr. cbv zeta. split.
  - unfold MarkAsReady. rewrite (update_returning_unique now image r _ Hnd Hin Haddr).
    reflexivity.
  - unfold Get. rewrite MarkAsReady_images.
    assert (Hin' : In (set_ready now r)
                      (update_ready now (ID image) (Ready image) (images s))).
    { unfold update_ready. apply in_map_iff. exists r. split; [|exact Hin].
      destruct Haddr as [Hid Hrd].
      rewrite (proj2 (where_id_ready_true _ _ _) (conj Hid Hrd)). reflexivity. }
    destruct Haddr as [Hid _].
    assert (Hnd' : List.NoDup
                     (map id (update_ready now (ID image) (Ready image) (images s))))
      by (rewrite update_ready_ids; exact Hnd).
    pose proof (filter_where_id_unique _ _ Hnd' Hin') as Hf.
    change (id (set_ready now r)) with (id r) in Hf. rewrite Hid in Hf.
    rewrite Hf. reflexivity.
Qed.

Lemma MarkAsReady_then_Get_witness :
  let r := {| id := 1; backed_up_at := 10; ready := true;
              anon := "CREATE DATABASE foo;";
              created_at := 11; updated_at := 12 |} in
  let s := {| images := [r]; images_id_seq := 2 |} in
  let image := {| ID := 1; BackedUpAt := 0; Ready := true; Anon := "";
                  CreatedAt := 0; UpdatedAt := 0 |} in
  addressed image r
  /\ snd (MarkAsReady s 20 image)
     = ({| ID := 1; BackedUpAt := 10; Ready := true; Anon := "";
           CreatedAt := 11; UpdatedAt := 20 |}, None)
  /\ Get (fst (MarkAsReady s 20 image)) 1
     = ({| ID := 1; BackedUpAt := 10; Ready := true;
           Anon := "CREATE DATABASE foo;";
           CreatedAt := 11; UpdatedAt := 20 |}, None).
Proof.
  cbv zeta. split; [split; reflexivity|].
  apply (MarkAsReady_then_Get
           {| images := [ {| id := 1; backed_up_at := 10; ready := true;
                             anon := "CREATE DATABASE foo;";
                             created_at := 11; updated_at := 12 |} ];
              images_id_seq := 2 |} 20
           {| ID := 1; BackedUpAt := 0; Ready := true; Anon := "";
              CreatedAt := 0; UpdatedAt := 0 |}
           {| id := 1; backed_up_at := 10; ready := true;
              anon := "CREATE DATABASE foo;";
              created_at := 11; updated_at := 12 |}).
  - simpl. repeat constructor. intros [].
  - left. reflexivity.
  - split; reflexivity.
Defined.

Lemma insert_by_id_last a l r :
  id a < id r -> insert_by_id a (l ++ [r]) = insert_by_id a l ++ [r].
Proof.
  intros Hlt. induction l as [|b l IH]; simpl.
  - destruct (Z.ltb_spec (id a) (id r)); [reflexivity|lia].
  - destruct (id a <? id b); [reflexivity|]. simpl. f_equal. exact IH.
Qed.

Lemma order_by_id_last rs r :
  Forall (fun a => id a < id r) rs ->
  order_by_id (rs ++ [r]) = order_by_id rs ++ [r].
Proof.
  induction 1 as [|a rs Ha _ IH]; simpl; [reflexivity|].
  rewrite IH. apply insert_by_id_last. exact Ha.
Qed.

(** X5.  With the sequence ahead of the ids in use, the listing after a
    [Create] is the listing before it followed by the new image: the record
    [Create] returned, with [Anon] emptied. *)
Theorem Create_then_List (s : DB) (image : Image) :
  Forall (fun r => id r < images_id_seq s) (images s) ->
  let s' := fst (Create s image) in
  let out := fst (snd (Create s image)) in
  List s' =
    (fst (List s) ++
       [ {| ID := ID out; BackedUpAt := BackedUpAt out; Ready := Ready out;
            Anon := ""; CreatedAt := CreatedAt out; UpdatedAt := UpdatedAt out |} ],
     None).
Proof.
  intros Hlt. cbv zeta. apply injective_projections; [|reflexivity].
  cbn [fst]. rewrite !List_listed. unfold Create. cbn [fst snd images].
  rewrite order_by_id_last by exact Hlt. rewrite map_app. reflexivity.
Qed.

Lemma Create_then_List_witness :
  let s := {| images := [ {| id := 1; backed_up_at := 10; ready := true;
                             anon := "CREATE DATABASE foo;";
                             created_at := 11; updated_at := 12 |} ];
              images_id_seq := 2 |} in
  let image := {| ID := 0; BackedUpAt := 30; Ready := false;
                  Anon := "UPDATE users SET email = NULL;";
                  CreatedAt := 31; UpdatedAt := 31 |} in
  Forall (fun r => id r < images_id_seq s) (images s)
  /\ fst (List (fst (Create s image))) =
       [ {| ID := 1; BackedUpAt := 10; Ready := true; Anon := "";
            CreatedAt := 11; UpdatedAt := 12 |};
         {| ID := 2; BackedUpAt := 30; Ready := false; Anon := "";
            CreatedAt := 31; UpdatedAt := 31 |} ].
Proof.
  cbv zeta.
  assert (H : Forall (fun r => id r < 2)
                [ {| id := 1; backed_up_at := 10; ready := true;
                     anon := "CREATE DATABASE foo;";
                     created_at := 11; updated_at := 12 |} ])
    by (repeat constructor).
  split; [exact H|].
  exact (f_equal fst
           (Create_then_List
              {| images := [ {| id := 1; backed_up_at := 10; ready := true;
                                anon := "CREATE DATABASE foo;";
                                created_at := 11; updated_at := 12 |} ];
                 images_id_seq := 2 |}
              {| ID := 0; BackedUpAt := 30; Ready := false;
                 Anon := "UPDATE users SET email = NULL;";
                 CreatedAt := 31; UpdatedAt := 31 |} H)).
Defined.

(** X6.  With the sequence ahead of the ids in use, destroying the image a
    [Create] has just returned gives back the rows there were before, unless
    the database refuses the DELETE, and then the new row stays; either way
    the sequence stays advanced: the id is not assigned again. *)
Theorem Create_then_Destroy (s : DB) (refused : option error) (image : Image) :
  Forall (fun r => id r < images_id_seq s) (images s) ->
  let created := Create s image in
  let s' := fst (Destroy (fst created) refused (fst (snd created))) in
  (refused = None -> images s' = images s)
  /\ (forall e, refused = Some e -> s' = fst created)
  /\ snd (Destroy (fst created) refused (fst (snd created))) = refused
  /\ images_id_seq s' = images_id_seq s + 1
  /\ ID (fst (snd (Create s' image))) <> ID (fst (snd created)).
Proof.
  intros Hlt. cbv zeta. unfold Destroy, Exec_delete, Create.
  destruct refused as [e|]; cbn [fst snd images images_id_seq].
  { split; [discriminate|]. split; [reflexivity|]. split; [reflexivity|].
    split; [reflexivity|simpl; lia]. }
  split; [intros _|split; [discriminate|split; [reflexivity|split; [reflexivity|simpl; lia]]]].
  rewrite List.filter_app. cbn [List.filter cols5 Scan5 ID id].
  unfold where_id at 2. cbn [id]. rewrite Z.eqb_refl. cbn [negb].
  rewrite app_nil_r. apply filter_negb_where_id_absent.
  intros Hin. apply in_map_iff in Hin as (r & E & Hr).
  rewrite Forall_forall in Hlt. specialize (Hlt r (proj2 (list_elem_of_In _ _) Hr)).
  simpl in E, Hlt. lia.
Qed.

Lemma Create_then_Destroy_witness :
  let s := {| images := [ {| id := 1; backed_up_at := 10; ready := true;
                             anon := "CREATE DATABASE foo;";
                             created_at := 11; updated_at := 12 |} ];
              images_id_seq := 2 |} in
  let image := {| ID := 0; BackedUpAt := 30; Ready := false; Anon := "";
                  CreatedAt := 31; UpdatedAt := 31 |} in
  let created := Create s image in
  Forall (fun r => id r < images_id_seq s) (images s)
  /\ images (fst (Destroy (fst created) None (fst (snd created)))) = images s.
Proof.
  cbv zeta.
  assert (H : Forall (fun r => id r < 2)
                [ {| id := 1; backed_up_at := 10; ready := true;
                     anon := "CREATE DATABASE foo;";
                     created_at := 11; updated_at := 12 |} ])
    by (repeat constructor).
  split; [exact H|].
  exact (proj1 (Create_then_Destroy
                  {| images := [ {| id := 1; backed_up_at := 10; ready := true;
                                    anon := "CREATE DATABASE foo;";
                                    created_at := 11; updated_at := 12 |} ];
                     images_id_seq := 2 |} None
                  {| ID := 0; BackedUpAt := 30; Ready := false; Anon := "";
                     CreatedAt := 31; UpdatedAt := 31 |} H) eq_refl).
Defined.

End store_laws.

(** ** The access-token handlers: what else they do and never do *)

Module routes_laws.
Import http routes routes_properties.

Section AccessTokens.

Variable GetLogger : Request -> Logger * option error.
Variable UnmarshalPayload : string -> createAccessTokenRequest * option error.
Variable invalidJSONError : APIError.
Variable oauthError : APIError.

#[local] Abbreviation Create :=
  (Create GetLogger UnmarshalPayload invalidJSONError oauthError).
#[local] Abbreviation Callback := (Callback GetLogger).

(** X7.  On every request and every registry, [Callback] leaves the
    registry as it found it, and sends at most one value; when it sends, it
    is on the channel registered under the request's state, never on the
    channel of another state. *)
Theorem Callback_sends_only_to_its_state
    (a : AccessTokens) (receiving : chan -> bool) (r : Request) :
  fst (value (Callback a receiving r)) = Callbacks a
  /\ (sends (trace (Callback a receiving r)) = []
      \/ exists slot v,
           Callbacks a !! FormGet r "state" = Some slot
           /\ sends (trace (Callback a receiving r)) = [(slot, v)]).
Proof.
  unfold routes.Callback, chan_send.
  destruct (GetLogger r) as [logger [e|]]; [split; [reflexivity|left; reflexivity]|].
  destruct (Callbacks a !! FormGet r "state") as [slot|] eqn:Hs;
    [|split; [reflexivity|left; reflexivity]].
  destruct (negb (String.eqb (FormGet r "error") ""));
    [destruct (receiving slot); (split; [reflexivity|right; eauto])|].
  destruct (String.eqb (FormGet r "code") "");
    [destruct (receiving slot); (split; [reflexivity|right; eauto])|].
  destruct (Exchange (Client a) (FormGet r "code"));
    destruct (receiving slot); (split; [reflexivity|right; eauto]).
Qed.

(** X8.  With a logger and a slot for its state, [Callback] sends one value
    on the slot.  When a goroutine receives on the slot, what [Callback]
    returns to its caller is what it delivered: the error it sent, or nil
    when it sent a token; and the page telling the user to close the tab is
    written exactly when a token was delivered.  When none receives,
    [Callback] stays blocked in the send: it does not return, the send is
    the last thing it does, and it writes and logs nothing.  An error named
    by the provider is sent with the provider's text, an empty code as
    "OAuth callback response code is empty", a failed exchange as the
    exchange's error wrapped in "token exchange error". *)
Theorem Callback_returns_what_it_delivers
    (a : AccessTokens) (receiving : chan -> bool) (r : Request)
    (logger : Logger) (slot : chan) :
  GetLogger r = (logger, None) ->
  Callbacks a !! FormGet r "state" = Some slot ->
  let run := Callback a receiving r in
  exists v,
    sends (trace run) = [(slot, v)]
    /\ (receiving slot = true ->
        snd (value run) = Returned (CallbackError v)
        /\ written (trace run)
           = match CallbackError v with
             | None => [Write success_page]
             | Some _ => []
             end)
    /\ (receiving slot = false ->
        snd (value run) = StaysBlocked
        /\ last (trace run) = Some (Send slot v)
        /\ written (trace run) = []
        /\ logged (trace run) = [])
    /\ (FormGet r "error" <> "" ->
        CallbackError v = Some (ErrorString (FormGet r "error")))
    /\ (FormGet r "error" = "" -> FormGet r "code" = "" ->
        CallbackError v = Some (ErrorString "OAuth callback response code is empty"))
    /\ (forall e, FormGet r "error" = "" -> FormGet r "code" <> "" ->
                  Exchange (Client a) (FormGet r "code") = inr e ->
                  CallbackError v = Some (Wrap e "token exchange error")).
Proof.
  intros Hl Hs. cbv zeta. unfold routes.Callback, chan_send. rewrite Hl, Hs.
  destruct (String.eqb_spec (FormGet r "error") "") as [He|He]; cbn [negb].
  - destruct (String.eqb_spec (FormGet r "code") "") as [Hc|Hc].
    + destruct (receiving slot);
        (eexists; (split; [reflexivity|]); repeat split; try reflexivity; intros;
         simplify_eq/=; done).
    + destruct (Exchange (Client a) (FormGet r "code")) as [token|err] eqn:Ex.
      * destruct (receiving slot);
          (eexists; (split; [reflexivity|]); repeat split; try reflexivity; intros;
           simplify_eq/=; done).
      * destruct (receiving slot);
          (eexists; (split; [reflexivity|]); repeat split; try reflexivity; intros;
           simplify_eq/=; done).
  - destruct (receiving slot);
      (eexists; (split; [reflexivity|]); repeat split; try reflexivity; intros;
       simplify_eq/=; done).
Qed.

(** X9.  [Callback] asks the provider to exchange a code only when the
    request carries a logger, a slot is registered for its state, the
    provider named no error and the code is not empty; the code it passes is
    the request's, and the timeout it sets is five seconds.  It asks at most
    once. *)
Theorem Exchange_only_for_a_code_without_error
    (a : AccessTokens) (receiving : chan -> bool) (r : Request)
    (code : string) (timeout : Duration) :
  In (CallExchange code timeout) (trace (Callback a receiving r)) ->
  snd (GetLogger r) = None
  /\ is_Some (Callbacks a !! FormGet r "state")
  /\ FormGet r "error" = ""
  /\ code = FormGet r "code" /\ code <> ""
  /\ timeout = 5 * 1000000000
  /\ length (List.filter (fun e => match e with CallExchange _ _ => true | _ => false end)
                         (trace (Callback a receiving r))) = 1%nat.
Proof.
  unfold routes.Callback, chan_send.
  destruct (GetLogger r) as [logger [e|]]; [intros []|].
  destruct (Callbacks a !! FormGet r "state") as [slot|] eqn:Hs;
    [|intros [H|[]]; discriminate H].
  destruct (String.eqb_spec (FormGet r "error") "") as [He|He]; cbn [negb];
    [|destruct (receiving slot); intros [H|[]]; discriminate H].
  destruct (String.eqb_spec (FormGet r "code") "") as [Hc|Hc];
    [destruct (receiving slot); simpl; intros Hin;
     repeat (destruct Hin as [Hin|Hin]; [discriminate Hin|]); destruct Hin|].
  intros Hin.
  assert (Hcall : CallExchange code timeout
                  = CallExchange (FormGet r "code") TOKEN_EXCHANGE_TIMEOUT).
  { destruct (Exchange (Client a) (FormGet r "code")); destruct (receiving slot);
      simpl in Hin;
      repeat (destruct Hin as [Hin|Hin]; [first [symmetry; exact Hin|discriminate Hin]|]);
      destruct Hin. }
  injection Hcall as -> ->.
  split; [reflexivity|]. split; [eauto|]. split; [exact He|].
  split; [reflexivity|]. split; [exact Hc|]. split; [reflexivity|].
  destruct (Exchange (Client a) (FormGet r "code")); destruct (receiving slot);
    reflexivity.
Qed.

(** X10.  A [Create] that cannot decode its payload answers 400 with the
    invalid-JSON error and returns nil; one whose request carries no logger
    returns the logger's error and writes nothing.  Neither registers a
    slot nor waits. *)
Theorem Create_refuses_without_waiting (a : AccessTokens) (w : World) (r : Request) :
  (forall logger e,
      GetLogger r = (logger, Some e) ->
      Create a w r = ([], (Callbacks a, Some e)))
  /\ (forall logger req e,
        GetLogger r = (logger, None) ->
        UnmarshalPayload (Body r) = (req, Some e) ->
        Create a w r =
          ([WriteHeader StatusBadRequest; Encode (EncodeAPIError invalidJSONError)],
           (Callbacks a, None)))
  /\ (blocked (trace (Create a w r)) = [] ->
      fst (value (Create a w r)) = Callbacks a
      /\ encoded_tokens (trace (Create a w r)) = []).
Proof.
  split; [|split].
  - intros logger e Hl. unfold routes.Create. rewrite Hl. reflexivity.
  - intros logger req e Hl Hu. unfold routes.Create. rewrite Hl, Hu. reflexivity.
  - unfold routes.Create.
    destruct (GetLogger r) as [logger [e|]]; [intros _; split; reflexivity|].
    destruct (UnmarshalPayload (Body r)) as [req [e|]]; [intros _; split; reflexivity|].
    unfold waitForCallback.
    destruct (select_or_timeout _ _ _) as [d [c|]].
    + destruct (CallbackError c); [discriminate|].
      destruct (write_error w); discriminate.
    + discriminate.
Qed.

(** X11.  Once the request has a logger and a state, [Create] writes one
    status: 201 followed by the token when its wait returned one, 400
    followed by the OAuth error when its wait failed.  A failed wait is not
    returned to the caller as an error; [Create] returns an error only when
    writing the token fails, and by then the status 201 is written. *)
Theorem Create_answers_201_or_400
    (a : AccessTokens) (w : World) (r : Request)
    (logger : Logger) (req : createAccessTokenRequest) :
  GetLogger r = (logger, None) ->
  UnmarshalPayload (Body r) = (req, None) ->
  let run := Create a w r in
  let wait := value (waitForCallback w (make_chan w)) in
  (snd wait = None ->
   written (trace run) = [WriteHeader StatusCreated; Encode (EncodeToken (fst wait))]
   /\ snd (value run)
      = match write_error w with
        | Some e => Some (Wrap e "failed to encode access token")
        | None => None
        end)
  /\ (forall e, snd wait = Some e ->
        written (trace run)
          = [WriteHeader StatusBadRequest; Encode (EncodeAPIError oauthError)]
        /\ snd (value run) = None)
  /\ (forall e, snd (value run) = Some e ->
        snd wait = None /\ exists e0, write_error w = Some e0).
Proof.
  intros Hl Hu. cbv zeta. rewrite (Create_after_wait _ _ _ _ a w r logger req Hl Hu).
  cbv zeta. unfold waitForCallback, value, trace.
  destruct (select_or_timeout _ _ _) as [d [c|]].
  - destruct (CallbackError c) as [e0|]; cbn [fst snd].
    + split; [discriminate|]. split; [intros e _; split; reflexivity|discriminate].
    + split; [intros _; split; reflexivity|]. split; [discriminate|].
      intros e. destruct (write_error w); [eauto|discriminate].
  - cbn [fst snd]. split; [discriminate|].
    split; [intros e _; split; reflexivity|discriminate].
Qed.

(** X12.  Two [Create] calls under one state share one registry entry.  The
    later registration replaces the earlier, so a [Callback] for the state
    sends on the later channel only; and when the earlier [Create] returns
    it removes the entry, after which a [Callback] for the state finds no
    slot, sends nothing and returns nil, with the later [Create] still
    waiting. *)
Theorem same_state_twice
    (a : AccessTokens) (w : World) (receiving : chan -> bool)
    (r r_callback : Request)
    (logger logger' : Logger) (req : createAccessTokenRequest) (later : chan) :
  GetLogger r = (logger, None) ->
  UnmarshalPayload (Body r) = (req, None) ->
  (forall m, meanwhile w m = <[State req := later]> m) ->
  GetLogger r_callback = (logger', None) ->
  FormGet r_callback "state" = State req ->
  let both := {| Callbacks := meanwhile w (<[State req := make_chan w]> (Callbacks a));
                 Client := Client a |} in
  let left := {| Callbacks := fst (value (Create a w r)); Client := Client a |} in
  (exists v, sends (trace (Callback both receiving r_callback)) = [(later, v)])
  /\ sends (trace (Callback left receiving r_callback)) = []
  /\ snd (value (Callback left receiving r_callback)) = Returned None.
Proof.
  intros Hl Hu Hm Hl' Hst. cbv zeta. split.
  - destruct (Callback_sends_once GetLogger
                {| Callbacks := meanwhile w (<[State req := make_chan w]> (Callbacks a));
                   Client := Client a |} receiving r_callback logger' later Hl')
      as (v & Hv & _).
    { cbn [Callbacks]. rewrite Hm, Hst. apply lookup_insert_eq. }
    exists v. exact Hv.
  - assert (Hgone : fst (value (Create a w r)) !! FormGet r_callback "state" = None).
    { rewrite (Create_after_wait _ _ _ _ a w r logger req Hl Hu). cbv zeta.
      unfold value. rewrite Hst.
      destruct (waitForCallback w (make_chan w)) as [t [token [err|]]];
        cbn [fst snd]; apply lookup_delete_eq. }
    unfold routes.Callback. rewrite Hl'. cbn [Callbacks]. rewrite Hgone.
    split; reflexivity.
Qed.

(** X13.  Under [OauthErrorRenderer], a [Callback] for a state with no slot
    leaves the response untouched: nothing is written, by either of them,
    and nil is returned.  A [Callback] to which the provider names an error
    sends that error on the slot; when a goroutine receives it, the error
    is returned through [OauthErrorRenderer], which answers 500 with a page
    quoting the provider's text.  Whenever a slot is there and no goroutine
    receives on it, the request stays blocked in the send: nothing is
    written and neither [Callback] nor the renderer returns. *)
Theorem OauthErrorRenderer_around_Callback
    (a : AccessTokens) (receiving : chan -> bool) (r : Request) (logger : Logger) :
  GetLogger r = (logger, None) ->
  let run := OauthErrorRenderer (Callback_handler GetLogger a receiving) r in
  (Callbacks a !! FormGet r "state" = None ->
   run = ([Log Info (With logger "state" (FormGet r "state"))
               "cannot find oauth callback for state"],
          Returned None))
  /\ (forall slot,
        Callbacks a !! FormGet r "state" = Some slot ->
        receiving slot = true ->
        FormGet r "error" <> "" ->
        let err := ErrorString (FormGet r "error") in
        run = ([Send slot {| CallbackToken := Token_zero;
                             CallbackError := Some err |};
                HeaderSet "Content-Type" "text/html";
                WriteHeader StatusInternalServerError;
                Write (error_page err)],
               Returned (Some err)))
  /\ (forall slot,
        Callbacks a !! FormGet r "state" = Some slot ->
        receiving slot = false ->
        value run = StaysBlocked
        /\ written (trace run) = []
        /\ exists v, last (trace run) = Some (Send slot v)).
Proof.
  intros Hl. cbv zeta.
  unfold OauthErrorRenderer, Callback_handler, routes.Callback, chan_send,
    mbind, Eff_bind.
  rewrite Hl. split; [|split].
  - intros Hs. rewrite Hs. reflexivity.
  - intros slot Hs Hr He. rewrite Hs.
    destruct (String.eqb_spec (FormGet r "error") "") as [E|_]; [contradiction|].
    cbn [negb]. rewrite Hr. reflexivity.
  - intros slot Hs Hr. rewrite Hs.
    destruct (negb (String.eqb (FormGet r "error") ""));
      [rewrite Hr; repeat split; eexists; reflexivity|].
    destruct (String.eqb (FormGet r "code") "");
      [rewrite Hr; repeat split; eexists; reflexivity|].
    destruct (Exchange (Client a) (FormGet r "code"));
      rewrite Hr; repeat split; eexists; reflexivity.
Qed.

(** X14.  [Authenticate] answers 302 with the provider's URL for the
    request's state as [Location] and registers nothing; so a [Callback]
    for that state that arrives before any [Create] finds no slot, sends
    nothing and returns nil. *)
Theorem Authenticate_registers_nothing
    (a : AccessTokens) (receiving : chan -> bool) (r r_callback : Request)
    (logger : Logger) :
  Callbacks a !! FormGet r "state" = None ->
  GetLogger r_callback = (logger, None) ->
  FormGet r_callback "state" = FormGet r "state" ->
  let run := routes.Authenticate a r in
  let left := {| Callbacks := fst (value run); Client := Client a |} in
  trace run = [HeaderAdd "Location" (AuthCodeURL (Client a) (FormGet r "state"));
               WriteHeader StatusFound]
  /\ value run = (Callbacks a, None)
  /\ sends (trace (Callback left receiving r_callback)) = []
  /\ snd (value (Callback left receiving r_callback)) = Returned None.
Proof.
  intros Hs Hl Hst. cbv zeta. split; [reflexivity|]. split; [reflexivity|].
  change {| Callbacks := fst (value (routes.Authenticate a r)); Client := Client a |}
    with {| Callbacks := Callbacks a; Client := Client a |}.
  unfold routes.Callback. rewrite Hl. cbn [Callbacks]. rewrite Hst, Hs.
  split; reflexivity.
Qed.

End AccessTokens.

(** The theorems above, at concrete requests. *)

Lemma Exchange_only_for_a_code_without_error_witness :
  In (CallExchange "the-code" (5 * 1000000000))
     (trace (routes.Callback fixtures.GetLogger fixtures.tokens_two
               fixtures.nobody_receiving fixtures.callback_request))
  /\ FormGet fixtures.callback_request "error" = ""
  /\ is_Some (Callbacks fixtures.tokens_two !! FormGet fixtures.callback_request "state").
Proof.
  assert (Hin : In (CallExchange "the-code" (5 * 1000000000))
                   (trace (routes.Callback fixtures.GetLogger fixtures.tokens_two
                             fixtures.nobody_receiving fixtures.callback_request)))
    by (vm_compute; left; reflexivity).
  split; [exact Hin|].
  destruct (Exchange_only_for_a_code_without_error fixtures.GetLogger
              fixtures.tokens_two fixtures.nobody_receiving fixtures.callback_request
              "the-code" (5 * 1000000000) Hin)
    as (_ & Hslot & Herr & _).
  split; [exact Herr|exact Hslot].
Defined.

Lemma Create_answers_201_or_400_witness :
  let run := routes.Create fixtures.GetLogger fixtures.UnmarshalPayload
               fixtures.invalidJSONError fixtures.oauthError
               fixtures.tokens_empty fixtures.quiet fixtures.create_request in
  fixtures.GetLogger fixtures.create_request = ([], None)
  /\ fixtures.UnmarshalPayload (Body fixtures.create_request)
     = ({| State := "state-1" |}, None)
  /\ written (trace run)
     = [WriteHeader 400; Encode (EncodeAPIError fixtures.oauthError)]
  /\ snd (value run) = None.
Proof.
  cbv zeta. split; [reflexivity|]. split; [reflexivity|].
  destruct (Create_answers_201_or_400
              fixtures.GetLogger fixtures.UnmarshalPayload
              fixtures.invalidJSONError fixtures.oauthError
              fixtures.tokens_empty fixtures.quiet fixtures.create_request
              [] {| State := "state-1" |} eq_refl eq_refl)
    as (_ & Hfail & _).
  exact (Hfail (ErrorString "Callback timed out") eq_refl).
Defined.

Lemma same_state_twice_witness :
  let left :=
    {| Callbacks :=
         fst (value (routes.Create fixtures.GetLogger fixtures.UnmarshalPayload
                       fixtures.invalidJSONError fixtures.oauthError
                       fixtures.tokens_empty fixtures_more.crowded
                       fixtures.create_request));
       Client := fixtures.client |} in
  (forall m, meanwhile fixtures_more.crowded m = <["state-1" := 9%positive]> m)
  /\ sends (trace (routes.Callback fixtures.GetLogger left
                     (fixtures.receiving_on 9%positive) fixtures.callback_request)) = []
  /\ snd (value (routes.Callback fixtures.GetLogger left
                   (fixtures.receiving_on 9%positive) fixtures.callback_request))
     = Returned None.
Proof.
  cbv zeta. split; [intros m; reflexivity|].
  assert (Hst : FormGet fixtures.callback_request "state" = "state-1")
    by (vm_compute; reflexivity).
  exact (proj2 (same_state_twice
                  fixtures.GetLogger fixtures.UnmarshalPayload
                  fixtures.invalidJSONError fixtures.oauthError
                  fixtures.tokens_empty fixtures_more.crowded
                  (fixtures.receiving_on 9%positive)
                  fixtures.create_request fixtures.callback_request
                  [] [] {| State := "state-1" |} 9%positive
                  eq_refl eq_refl (fun m => eq_refl) eq_refl Hst)).
Defined.

Lemma OauthErrorRenderer_around_Callback_witness :
  let r := fixtures_more.denied_request in
  let err := ErrorString "access_denied" in
  let sent := Send 3%positive {| CallbackToken := Token_zero;
                                 CallbackError := Some err |} in
  fixtures.GetLogger r = ([], None)
  /\ Callbacks fixtures.tokens_two !! FormGet r "state" = Some 3%positive
  /\ OauthErrorRenderer
       (Callback_handler fixtures.GetLogger fixtures.tokens_two
          (fixtures.receiving_on 3%positive)) r
     = ([sent; HeaderSet "Content-Type" "text/html"; WriteHeader 500;
         Write (error_page err)],
        Returned (Some err))
  /\ value (OauthErrorRenderer
              (Callback_handler fixtures.GetLogger fixtures.tokens_two
                 fixtures.nobody_receiving) r)
     = StaysBlocked.
Proof.
  cbv zeta.
  assert (Hs : Callbacks fixtures.tokens_two
                 !! FormGet fixtures_more.denied_request "state" = Some 3%positive)
    by (vm_compute; reflexivity).
  assert (He : FormGet fixtures_more.denied_request "error" <> "")
    by (vm_compute; discriminate).
  split; [reflexivity|]. split; [exact Hs|]. split.
  - exact (proj1 (proj2 (OauthErrorRenderer_around_Callback fixtures.GetLogger
                           fixtures.tokens_two (fixtures.receiving_on 3%positive)
                           fixtures_more.denied_request [] eq_refl))
             3%positive Hs eq_refl He).
  - exact (proj1 (proj2 (proj2 (OauthErrorRenderer_around_Callback fixtures.GetLogger
                                  fixtures.tokens_two fixtures.nobody_receiving
                                  fixtures_more.denied_request [] eq_refl))
                    3%positive Hs eq_refl)).
Defined.

Lemma Authenticate_registers_nothing_witness :
  let run := routes.Authenticate fixtures.tokens_other fixtures_more.authenticate_request in
  let left := {| Callbacks := fst (value run); Client := fixtures.client |} in
  Callbacks fixtures.tokens_other
    !! FormGet fixtures_more.authenticate_request "state" = None
  /\ trace run
     = [HeaderAdd "Location" "https://accounts.example/o/oauth2/auth?state=state-1";
        WriteHeader 302]
  /\ sends (trace (routes.Callback fixtures.GetLogger left
                     fixtures.nobody_receiving fixtures.callback_request)) = [].
Proof.
  cbv zeta.
  assert (Hs : Callbacks fixtures.tokens_other
                 !! FormGet fixtures_more.authenticate_request "state" = None)
    by (vm_compute; reflexivity).
  assert (Hst : FormGet fixtures.callback_request "state"
                = FormGet fixtures_more.authenticate_request "state")
    by (vm_compute; reflexivity).
  split; [exact Hs|].
  destruct (Authenticate_registers_nothing fixtures.GetLogger
              fixtures.tokens_other fixtures.nobody_receiving
              fixtures_more.authenticate_request
              fixtures.callback_request [] Hs eq_refl Hst)
    as (Ht & _ & Hsend & _).
  split; [|exact Hsend]. rewrite Ht. vm_compute. reflexivity.
Defined.

Lemma Callback_returns_what_it_delivers_witness :
  let r := fixtures_more.denied_request in
  let a := fixtures.tokens_two in
  let received := routes.Callback fixtures.GetLogger a
                    (fixtures.receiving_on 3%positive) r in
  let unreceived := routes.Callback fixtures.GetLogger a
                      fixtures.nobody_receiving r in
  fixtures.GetLogger r = ([], None)
  /\ Callbacks a !! FormGet r "state" = Some 3%positive
  /\ (exists v,
        sends (trace received) = [(3%positive, v)]
        /\ CallbackError v = Some (ErrorString "access_denied")
        /\ snd (value received) = Returned (Some (ErrorString "access_denied")))
  /\ snd (value unreceived) = StaysBlocked
  /\ written (trace unreceived) = [].
Proof.
  cbv zeta.
  assert (Hs : Callbacks fixtures.tokens_two
                 !! FormGet fixtures_more.denied_request "state" = Some 3%positive)
    by (vm_compute; reflexivity).
  split; [reflexivity|]. split; [exact Hs|]. split.
  - destruct (Callback_returns_what_it_delivers fixtures.GetLogger
                fixtures.tokens_two (fixtures.receiving_on 3%positive)
                fixtures_more.denied_request [] 3%positive eq_refl Hs)
      as (v & Hsend & Hret & _ & Herr & _).
    exists v. split; [exact Hsend|].
    assert (Hv : CallbackError v = Some (ErrorString "access_denied")).
    { rewrite Herr; [vm_compute; reflexivity|vm_compute; discriminate]. }
    split; [exact Hv|]. rewrite (proj1 (Hret eq_refl)), Hv. reflexivity.
  - destruct (Callback_returns_what_it_delivers fixtures.GetLogger
                fixtures.tokens_two fixtures.nobody_receiving
                fixtures_more.denied_request [] 3%positive eq_refl Hs)
      as (v & _ & _ & Hblocked & _).
    destruct (Hblocked eq_refl) as (Hout & _ & Hw & _).
    split; [exact Hout|exact Hw].
Defined.

End routes_laws.

(** ** The authentication middleware: what reaches the next handler *)

Module middleware_laws.
Import http middleware middleware_properties.

(** X15.  The request [Authenticate] hands to the next handler is the one it
    received with the identity added: same form, same body, and under every
    context key but [AuthUserKey] the value there was, so that what earlier
    middleware attached is still found.  The identity is the one the
    authenticator returned for this request, also when the request came
    with another identity attached. *)
Theorem Authenticate_hands_on_the_request
    (GetLogger : Request -> Logger * option error) (UnauthorizedError : APIError)
    (authenticator : Authenticator) (next : Handler)
    (r r' : Request) (inner : list Event) (err : option error) :
  In (CallNext r' inner err)
     (trace (Authenticate GetLogger UnauthorizedError authenticator next r)) ->
  Form r' = Form r
  /\ Body r' = Body r
  /\ (forall key, key <> AuthUserKey -> Value (Ctx r') key = Value (Ctx r) key)
  /\ fst (authenticator r) = fst (GetAuthenticatedUser r')
  /\ snd (authenticator r) = None
  /\ (inner, err) = next r'.
Proof.
  unfold Authenticate.
  destruct (GetLogger r) as [logger [e|]]; [intros []|].
  destruct (authenticator r) as [email [e|]] eqn:Ea; run_eff; rewrite Ea; simpl.
  - intros [H|[H|[H|[H|[]]]]]; discriminate H.
  - destruct (next _) as [inner0 err0] eqn:En. simpl.
    intros [H|[H|[]]]; [discriminate H|]. injection H as <- <- <-.
    split; [reflexivity|]. split; [reflexivity|]. split.
    + intros key Hkey.
      assert (E : (AuthUserKey =? key) = false) by (apply Z.eqb_neq; congruence).
      unfold WithContext, WithValue. cbn [Ctx Value]. rewrite E. reflexivity.
    + split; [reflexivity|]. split; [reflexivity|]. symmetry. exact En.
Qed.

Lemma Authenticate_hands_on_the_request_witness :
  let r' := WithContext fixtures.good_secret_request
              (WithValue (Ctx fixtures.good_secret_request) AuthUserKey
                 (AnyString "upload")) in
  In (CallNext r' [Write "ok"] None)
     (trace (Authenticate fixtures.GetLogger fixtures.UnauthorizedError
               fixtures.authenticator fixtures.ok_handler
               fixtures.good_secret_request))
  /\ fixtures.GetLogger r' = ([], None)
  /\ GetAuthenticatedUser r' = ("upload", None).
Proof.
  cbv zeta.
  assert (Hin : In (CallNext
                      (WithContext fixtures.good_secret_request
                         (WithValue (Ctx fixtures.good_secret_request) AuthUserKey
                            (AnyString "upload")))
                      [Write "ok"] None)
                   (trace (Authenticate fixtures.GetLogger fixtures.UnauthorizedError
                             fixtures.authenticator fixtures.ok_handler
                             fixtures.good_secret_request)))
    by (vm_compute; right; left; reflexivity).
  split; [exact Hin|].
  destruct (Authenticate_hands_on_the_request _ _ _ _ _ _ _ _ Hin)
    as (_ & _ & Hctx & _).
  split; [|reflexivity].
  unfold fixtures.GetLogger. rewrite Hctx by discriminate. reflexivity.
Defined.

(** X16.  [Authenticate] returns an error to the chain in two cases only:
    the request carries no logger, and then it is the logger's error, with
    nothing written and neither the authenticator nor the next handler
    called; or the next handler returned it.  A failed authentication is
    answered on the response and returned as nil. *)
Theorem Authenticate_returns_few_errors
    (GetLogger : Request -> Logger * option error) (UnauthorizedError : APIError)
    (authenticator : Authenticator) (next : Handler) (r : Request) :
  let run := Authenticate GetLogger UnauthorizedError authenticator next r in
  (forall e, snd (GetLogger r) = Some e -> run = ([], Some e))
  /\ (forall e, value run = Some e ->
        snd (GetLogger r) = Some e
        \/ (snd (authenticator r) = None
            /\ exists r' inner, In (CallNext r' inner (Some e)) (trace run)))
  /\ (forall e, snd (GetLogger r) = None -> snd (authenticator r) = Some e ->
        value run = None).
Proof.
  cbv zeta. unfold Authenticate.
  destruct (GetLogger r) as [logger [e0|]]; cbn [snd].
  - split; [intros e H; injection H as ->; reflexivity|].
    split; [intros e H; left; exact H|discriminate].
  - split; [discriminate|].
    destruct (authenticator r) as [email [e1|]] eqn:Ea; run_eff; rewrite Ea; simpl.
    + split; [discriminate|]. reflexivity.
    + destruct (next _) as [inner ret0] eqn:En. simpl.
      split; [|discriminate].
      intros e ->. right. split; [reflexivity|]. eexists _, _. right. left. reflexivity.
Qed.

End middleware_laws.

(** ** The scripts: when they succeed, and what a failure leaves undone *)

Module provision_laws.
Import provision provision_properties.

Lemma expose_result m :
  (status m RmAutoConf = 0 /\ status m PgCtlRestart = 0 /\ snd (expose m) = inl tt)
  \/ (~ (status m RmAutoConf = 0 /\ status m PgCtlRestart = 0)
      /\ exists code, snd (expose m) = inr code /\ code <> 0).
Proof.
  unfold expose.
  destruct (Z.eqb_spec (status m RmAutoConf) 0) as [H1|H1].
  - destruct (Z.eqb_spec (status m PgCtlRestart) 0) as [H2|H2].
    + left. sh_eval. rewrite H1, H2. simpl. auto.
    + right. split; [tauto|]. exists (status m PgCtlRestart). sh_eval.
      rewrite H1. simpl.
      destruct (Z.eqb_spec (status m PgCtlRestart) 0); [contradiction|].
      split; [reflexivity|exact H2].
  - right. split; [tauto|]. exists (status m RmAutoConf). sh_eval.
    destruct (Z.eqb_spec (status m RmAutoConf) 0); [contradiction|].
    split; [reflexivity|exact H1].
Qed.

(** X17.  The script exits with status 0 exactly when it was given four
    arguments, every command of the setup succeeded, every check held, and
    the removal of the localhost restriction and the restart succeeded. *)
Theorem create_instance_succeeds_exactly_when (m : Machine) (args : list string) :
  snd (create_instance m args) = 0
  <-> length args = 4%nat /\ started m /\ verified m
      /\ status m RmAutoConf = 0 /\ status m PgCtlRestart = 0.
Proof.
  destruct (Nat.eq_dec (length args) 4%nat) as [Hlen|Hlen].
  2:{ split; [|tauto]. unfold create_instance.
      destruct (Z.eqb_spec (Z.of_nat (length args)) 4) as [E|_]; [lia|].
      simpl. discriminate. }
  rewrite (create_instance_parts m args Hlen).
  destruct (started_or_not m) as [Hst|Hst].
  2:{ destruct (simple_all_stopped m setup Hst) as (pre & c & -> & Hc & _).
      cbn [snd]. tauto. }
  rewrite (simple_all_started m setup Hst).
  destruct (verified_or_not m) as [Hv|Hv].
  2:{ destruct (verify_unverified m Hv) as (t2 & c & -> & Hc & _).
      cbn [snd]. tauto. }
  rewrite (verify_verified m Hv).
  destruct (expose_result m) as [(H1 & H2 & E)|(Hn & code & E & Hcode)];
    destruct (expose m) as [t3 r3]; cbn [snd] in E; subst r3; cbn [snd]; tauto.
Qed.

(** The first command of a list that fails, with the ones before it. *)
Lemma simple_all_first_failure m cs :
  ~ Forall (fun c => status m c = 0) cs ->
  exists pre c rest,
    cs = pre ++ c :: rest
    /\ Forall (fun c => status m c = 0) pre
    /\ status m c <> 0
    /\ simple_all m cs = (map Run (pre ++ [c]), inr (status m c)).
Proof.
  induction cs as [|c cs IH]; intros Hn.
  - exfalso. apply Hn. constructor.
  - destruct (Z.eq_dec (status m c) 0) as [Hc|Hc].
    + destruct IH as (pre & c' & rest & -> & Hpre & Hc' & Hs).
      { intros Hall. apply Hn. constructor; assumption. }
      exists (c :: pre), c', rest. split; [reflexivity|].
      split; [constructor; assumption|]. split; [exact Hc'|].
      cbn [simple_all]. rewrite Hs. run_sh. rewrite Hc. reflexivity.
    + exists [], c, cs. split; [reflexivity|]. split; [constructor|].
      split; [exact Hc|]. cbn [simple_all]. run_sh.
      destruct (Z.eqb_spec (status m c) 0); [contradiction|reflexivity].
Qed.

(** X18.  [pg_ctl stop] is run only on an instance that was started and
    failed a check, and then the exit status is not 0.  When a command of
    the setup fails, the script ends right after it with that command's
    status: it runs none of the checks, stops nothing and removes nothing
    of what the setup has made so far.  With any number of arguments other
    than four it prints the usage text, runs no command and exits with
    status 1. *)
Theorem what_a_failure_leaves (m : Machine) (args : list string) :
  let t := fst (create_instance m args) in
  let code := snd (create_instance m args) in
  (In (Run PgCtlStop) t ->
   length args = 4%nat /\ started m /\ ~ verified m /\ code <> 0)
  /\ (length args = 4%nat -> ~ started m ->
      exists pre c rest,
        setup = pre ++ c :: rest
        /\ Forall (fun c => status m c = 0) pre
        /\ status m c <> 0
        /\ t = map Run (pre ++ [c])
        /\ code = status m c)
  /\ (length args <> 4%nat -> create_instance m args = ([Usage], 1)).
Proof.
  cbv zeta. split; [|split].
  - destruct (Nat.eq_dec (length args) 4%nat) as [Hlen|Hlen].
    2:{ unfold create_instance.
        destruct (Z.eqb_spec (Z.of_nat (length args)) 4) as [E|_]; [lia|].
        simpl. intros [H|[]]. discriminate H. }
    rewrite (create_instance_parts m args Hlen).
    destruct (started_or_not m) as [Hst|Hst].
    2:{ destruct (simple_all_stopped m setup Hst) as (pre & c & -> & _ & Hpre).
        cbn [fst]. intros H. apply in_map_iff in H as (c0 & Hc0 & Hin).
        injection Hc0 as ->. apply Hpre in Hin. simpl in Hin.
        intuition discriminate. }
    rewrite (simple_all_started m setup Hst).
    destruct (verified_or_not m) as [Hv|Hv].
    + rewrite (verify_verified m Hv).
      destruct (expose_cases m) as (after & r & -> & Hafter & _).
      intros H. exfalso.
      assert (Hin : In (Run PgCtlStop)
                       (map Run setup ++ verify_passed ++ Run RmAutoConf :: after)).
      { destruct r as [[]|c]; exact H. }
      destruct Hafter as [-> | ->]; simpl in Hin; intuition discriminate.
    + destruct (verify_unverified m Hv) as (t2 & c & -> & Hc & _).
      cbn [fst snd]. intros _. auto.
  - intros Hlen Hst. rewrite (create_instance_parts m args Hlen).
    destruct (simple_all_first_failure m setup Hst)
      as (pre & c & rest & E & Hpre & Hc & ->).
    exists pre, c, rest. cbn [fst snd]. auto.
  - intros Hlen. unfold create_instance.
    destruct (Z.eqb_spec (Z.of_nat (length args)) 4) as [E|_]; [lia|].
    reflexivity.
Qed.

Import destroy_instance.

(** X19.  The script that destroys an instance deletes the subvolume only
    after [pg_ctl stop] has succeeded, and exits with status 0 exactly when
    it was given a root and a non-empty id and both commands succeeded.
    Given fewer than two arguments, or an empty id, it runs nothing and
    exits with status 1. *)
Theorem destroy_deletes_only_after_stop
    (m : destroy_instance.Machine) (args : list string) :
  let t := fst (destroy_instance.script m args) in
  let code := snd (destroy_instance.script m args) in
  (In BtrfsSubvolumeDelete t ->
   destroy_instance.status m destroy_instance.PgCtlStop = 0
   /\ t = [destroy_instance.PgCtlStop; BtrfsSubvolumeDelete])
  /\ (code = 0 <->
      (exists root id rest, args = root :: id :: rest /\ id <> "")
      /\ destroy_instance.status m destroy_instance.PgCtlStop = 0
      /\ destroy_instance.status m BtrfsSubvolumeDelete = 0)
  /\ ((length args < 2)%nat \/ nth 1 args "x" = "" ->
      destroy_instance.script m args = ([], 1)).
Proof.
  cbv zeta. unfold destroy_instance.script.
  destruct args as [|root [|id rest]].
  - split; [intros []|]. split; [|reflexivity].
    split; [discriminate|]. intros [(r0 & i0 & rs & E & _) _]. discriminate E.
  - split; [intros []|]. split; [|reflexivity].
    split; [discriminate|]. intros [(r0 & i0 & rs & E & _) _]. discriminate E.
  - destruct (String.eqb_spec id "") as [Hid|Hid].
    + split; [intros []|]. split; [|reflexivity].
      split; [discriminate|]. intros [(r0 & i0 & rs & E & Hne) _].
      injection E as _ <- _. contradiction.
    + destruct (Z.eqb_spec (destroy_instance.status m destroy_instance.PgCtlStop) 0)
        as [Hs|Hs].
      * destruct (Z.eqb_spec (destroy_instance.status m BtrfsSubvolumeDelete) 0)
          as [Hd|Hd]; cbn [fst snd].
        -- split; [auto|]. split; [|intros [H|H]; [simpl in H; lia|simpl in H; contradiction]].
           split; [intros _; eauto 10|reflexivity].
        -- split; [auto|]. split; [|intros [H|H]; [simpl in H; lia|simpl in H; contradiction]].
           split; [contradiction|tauto].
      * cbn [fst snd]. split; [intros [H|[]]; discriminate H|].
        split; [|intros [H|H]; [simpl in H; lia|simpl in H; contradiction]].
        split; [contradiction|tauto].
Qed.

End provision_laws.

(** ** The client: which answers it trusts, and what it sends *)

Module client_laws.
Import models client client_http client_properties.

Lemma copy_images_app maybeImages : forall images,
  copy_images maybeImages images = images ++ maybeImages.
Proof.
  induction maybeImages as [|i rest IH]; intros images; simpl.
  - rewrite app_nil_r. reflexivity.
  - rewrite IH, <- app_assoc. reflexivity.
Qed.

Section Client.

Variable Version : string.
Variable NewRequest_error : string -> string -> option error.
Variable Do : Request -> option Response * option error.
Variable UnmarshalImage : string -> Image -> Image * option error.
Variable UnmarshalManyImages : string -> list Image * option error.
Variable DecodeAPIError : string -> http.APIError * option error.

#[local] Abbreviation send := (send Version NewRequest_error Do).
#[local] Abbreviation GetImage :=
  (GetImage Version NewRequest_error Do UnmarshalImage DecodeAPIError).
#[local] Abbreviation ListImages :=
  (ListImages Version NewRequest_error Do UnmarshalManyImages DecodeAPIError).
#[local] Abbreviation FinaliseImage :=
  (FinaliseImage Version NewRequest_error Do UnmarshalImage).
#[local] Abbreviation DestroyImage :=
  (DestroyImage Version NewRequest_error Do DecodeAPIError).

(** What [get], [post] and [delete] give the transport. *)
Lemma send_sent c method path payload :
  send c method path payload =
    match NewRequest_error method (url c +:+ path) with
    | Some err => (None, Some err)
    | None => Do (sent Version c method path payload)
    end.
Proof. reflexivity. Qed.

Lemma parseError_is_an_error body : exists e, parseError DecodeAPIError body = Some e.
Proof.
  unfold parseError. destruct (DecodeAPIError body) as [apiError [e|]]; eauto.
Qed.

(** X20.  [DestroyImage] returns nil exactly when the request could be
    built and the server answered the DELETE of [/images/<id>], the id in
    decimal, with status 204.  Any other status gives an error, also 200. *)
Theorem DestroyImage_nil_exactly_on_204 (c : Client) (image : Image) :
  DestroyImage c image = Returns None
  <-> NewRequest_error "DELETE" (url c +:+ "/images/" +:+ pretty (ID image)) = None
      /\ exists resp,
           Do (sent Version c "DELETE" ("/images/" +:+ pretty (ID image)) "")
             = (Some resp, None)
           /\ StatusCode resp = 204.
Proof.
  unfold client_http.DestroyImage, delete. rewrite send_sent.
  destruct (NewRequest_error "DELETE" (url c +:+ "/images/" +:+ pretty (ID image)))
    as [e|].
  { split; [discriminate|]. intros [H _]. discriminate H. }
  destruct (Do _) as [[resp|] [e|]].
  - split; [discriminate|]. intros [_ (resp' & H & _)]. discriminate H.
  - destruct (Z.eqb_spec (StatusCode resp) StatusNoContent) as [E|E]; cbn [negb].
    + split; [intros _; split; [reflexivity|]; exists resp; auto|reflexivity].
    + destruct (parseError_is_an_error (Body resp)) as (e & ->).
      split; [discriminate|]. intros [_ (resp' & H & H204)].
      injection H as <-. contradiction.
  - split; [discriminate|]. intros [_ (resp' & H & _)]. discriminate H.
  - split; [discriminate|]. intros [_ (resp' & H & _)]. discriminate H.
Qed.

(** X21.  [GetImage] and [ListImages] take a response for data only when
    its status is 200: when they return without error, the request could be
    built, the server answered the GET with status 200, and what they
    return is what the decoder made of the body.  With any other status
    they return an error, an image that is the zero image, and a list that
    is empty. *)
Theorem only_status_200_is_data (c : Client) :
  (forall id image,
      GetImage c id = Returns (image, None) ->
      NewRequest_error "GET" (url c +:+ "/images/" +:+ id) = None
      /\ exists resp,
           Do (sent Version c "GET" ("/images/" +:+ id) "") = (Some resp, None)
           /\ StatusCode resp = 200
           /\ UnmarshalImage (Body resp) models.zero = (image, None))
  /\ (forall images,
        ListImages c = Returns (images, None) ->
        NewRequest_error "GET" (url c +:+ "/images") = None
        /\ exists resp,
             Do (sent Version c "GET" "/images" "") = (Some resp, None)
             /\ StatusCode resp = 200
             /\ UnmarshalManyImages (Body resp) = (images, None))
  /\ (forall id resp,
        NewRequest_error "GET" (url c +:+ "/images/" +:+ id) = None ->
        Do (sent Version c "GET" ("/images/" +:+ id) "") = (Some resp, None) ->
        StatusCode resp <> 200 ->
        exists e, GetImage c id = Returns (models.zero, Some e))
  /\ (forall resp,
        NewRequest_error "GET" (url c +:+ "/images") = None ->
        Do (sent Version c "GET" "/images" "") = (Some resp, None) ->
        StatusCode resp <> 200 ->
        exists e, ListImages c = Returns ([], Some e)).
Proof.
  split; [|split; [|split]].
  - intros id image. unfold client_http.GetImage, get. rewrite send_sent.
    destruct (NewRequest_error "GET" (url c +:+ "/images/" +:+ id)) as [e|];
      [discriminate|].
    destruct (Do _) as [[resp|] [e|]]; try discriminate.
    destruct (Z.eqb_spec (StatusCode resp) StatusOK) as [E|E]; cbn [negb].
    + intros H. injection H as H. split; [reflexivity|]. exists resp. auto.
    + destruct (parseError_is_an_error (Body resp)) as (e & ->). discriminate.
  - intros images. unfold client_http.ListImages, get. rewrite send_sent.
    destruct (NewRequest_error "GET" (url c +:+ "/images")) as [e|];
      [discriminate|].
    destruct (Do _) as [[resp|] [e|]]; try discriminate.
    destruct (Z.eqb_spec (StatusCode resp) StatusOK) as [E|E]; cbn [negb].
    + destruct (UnmarshalManyImages (Body resp)) as [maybe [e|]] eqn:Eu;
        [discriminate|].
      rewrite copy_images_app. simpl. intros H. injection H as <-.
      split; [reflexivity|]. exists resp. auto.
    + destruct (parseError_is_an_error (Body resp)) as (e & ->). discriminate.
  - intros id resp Hn Hd Hs. unfold client_http.GetImage, get.
    rewrite send_sent, Hn, Hd.
    destruct (Z.eqb_spec (StatusCode resp) StatusOK) as [E|E]; [contradiction|].
    cbn [negb]. destruct (parseError_is_an_error (Body resp)) as (e & ->). eauto.
  - intros resp Hn Hd Hs. unfold client_http.ListImages, get.
    rewrite send_sent, Hn, Hd.
    destruct (Z.eqb_spec (StatusCode resp) StatusOK) as [E|E]; [contradiction|].
    cbn [negb]. destruct (parseError_is_an_error (Body resp)) as (e & ->). eauto.
Qed.

(** X22.  [FinaliseImage] does not read the answer to its POST of
    [/images/<id>/done]: whenever the transport returns without error it
    returns the zero image and nil, whatever the status and the body.  It
    reads a body only when the transport returned an error together with a
    response; with an error and no response, as when the request cannot be
    built, it dereferences nil. *)
Theorem FinaliseImage_ignores_the_answer (c : Client) (imageID : Z) :
  let path := "/images/" +:+ pretty imageID +:+ "/done" in
  let answer := Do (sent Version c "POST" path "") in
  (NewRequest_error "POST" (url c +:+ path) = None ->
   snd answer = None ->
   FinaliseImage c imageID = Returns (models.zero, None))
  /\ (NewRequest_error "POST" (url c +:+ path) = None ->
      forall resp e, answer = (Some resp, Some e) ->
      FinaliseImage c imageID = Returns (UnmarshalImage (Body resp) models.zero))
  /\ ((exists e, NewRequest_error "POST" (url c +:+ path) = Some e)
      \/ (exists e, NewRequest_error "POST" (url c +:+ path) = None
                    /\ answer = (None, Some e)) ->
      FinaliseImage c imageID = Panics).
Proof.
  cbv zeta. unfold client_http.FinaliseImage, post. rewrite send_sent.
  split; [|split].
  - intros -> Hs. destruct (Do _) as [resp [e|]]; [discriminate|].
    destruct resp; reflexivity.
  - intros -> resp e ->. reflexivity.
  - intros [(e & ->)|(e & -> & ->)]; reflexivity.
Qed.

End Client.

(** X23.  The transport is only ever given requests that carry three
    headers and no other: [Content-Type: application/json], the version, and
    [Authorization: Bearer] followed by the refresh token of the client's
    OAuth token.  So two transports that agree on such requests make
    [GetImage], [ListImages], [FinaliseImage] and [DestroyImage] return the
    same. *)
Theorem requests_carry_the_refresh_token
    (Version : string) (NewRequest_error : string -> string -> option error)
    (Do Do' : Request -> option Response * option error)
    (UnmarshalImage : string -> Image -> Image * option error)
    (UnmarshalManyImages : string -> list Image * option error)
    (DecodeAPIError : string -> http.APIError * option error)
    (c : Client) :
  (forall req,
      Header req !! "Authorization" = Some ("Bearer " +:+ http.RefreshToken (token c)) ->
      Header req !! "Content-Type" = Some "application/json" ->
      Header req !! "Draupnir-Version" = Some Version ->
      size (Header req) = 3%nat ->
      Do req = Do' req) ->
  (forall id,
      GetImage Version NewRequest_error Do UnmarshalImage DecodeAPIError c id
      = GetImage Version NewRequest_error Do' UnmarshalImage DecodeAPIError c id)
  /\ ListImages Version NewRequest_error Do UnmarshalManyImages DecodeAPIError c
     = ListImages Version NewRequest_error Do' UnmarshalManyImages DecodeAPIError c
  /\ (forall id,
        FinaliseImage Version NewRequest_error Do UnmarshalImage c id
        = FinaliseImage Version NewRequest_error Do' UnmarshalImage c id)
  /\ (forall image,
        DestroyImage Version NewRequest_error Do DecodeAPIError c image
        = DestroyImage Version NewRequest_error Do' DecodeAPIError c image).
Proof.
  intros Hagree.
  assert (Hsend : forall method path payload,
             send Version NewRequest_error Do c method path payload
             = send Version NewRequest_error Do' c method path payload).
  { intros method path payload. rewrite !send_sent.
    destruct (NewRequest_error method (url c +:+ path)); [reflexivity|].
    apply Hagree; unfold sent; cbn [Header].
    - rewrite lookup_insert_ne by discriminate. apply lookup_insert_eq.
    - rewrite !lookup_insert_ne by discriminate. apply lookup_insert_eq.
    - apply lookup_insert_eq.
    - rewrite !map_size_insert_None.
      + rewrite map_size_empty. reflexivity.
      + apply lookup_empty.
      + rewrite lookup_insert_ne by discriminate. apply lookup_empty.
      + rewrite !lookup_insert_ne by discriminate. apply lookup_empty. }
  split; [|split; [|split]].
  - intros id. unfold GetImage, get. rewrite Hsend. reflexivity.
  - unfold ListImages, get. rewrite Hsend. reflexivity.
  - intros id. unfold FinaliseImage, post. rewrite Hsend. reflexivity.
  - intros image. unfold DestroyImage, delete. rewrite Hsend. reflexivity.
Qed.

Lemma requests_carry_the_refresh_token_witness :
  DestroyImage "1.0.0" fixtures_more.any_request fixtures_more.strict_server
    fixtures_more.no_api_error fixtures_more.api_client models.zero
  = DestroyImage "1.0.0" fixtures_more.any_request fixtures_more.lax_server
      fixtures_more.no_api_error fixtures_more.api_client models.zero.
Proof.
  refine (proj2 (proj2 (proj2
            (requests_carry_the_refresh_token "1.0.0" fixtures_more.any_request
               fixtures_more.strict_server fixtures_more.lax_server
               fixtures_more.image_decoder fixtures_more.listing_decoder
               fixtures_more.no_api_error fixtures_more.api_client _))) models.zero).
  intros req Hauth _ _ _. unfold fixtures_more.strict_server. rewrite Hauth.
  vm_compute. reflexivity.
Defined.

(** Whether a listing has a ready image. *)
Lemma some_ready_or_none (images : list Image) :
  (exists i, In i images /\ Ready i = true)
  \/ (forall i, In i images -> Ready i = false).
Proof.
  induction images as [|x images [(i & Hi & Hr)|Hnone]].
  - right. intros i [].
  - left. exists i. split; [right; exact Hi|exact Hr].
  - destruct (Ready x) eqn:Hx.
    + left. exists x. split; [left; reflexivity|exact Hx].
    + right. intros i [<-|Hi]; [exact Hx|apply Hnone, Hi].
Qed.

Section GetLatestImage.

Variable sort_Slice : (Image -> Image -> bool) -> list Image -> list Image.
Hypothesis sort_Slice_sorts : sorts sort_Slice.

(** The result of [GetLatestImage] on a listing, for a sort that sorts. *)
Lemma GetLatestImage_cases (images : list Image) :
  (exists img,
      snd (client.GetLatestImage sort_Slice (images, None)) = (img, None)
      /\ In img images /\ Ready img = true
      /\ (forall other, In other images -> Ready other = true ->
                        UpdatedAt other <= UpdatedAt img))
  \/ ((forall i, In i images -> Ready i = false)
      /\ snd (client.GetLatestImage sort_Slice (images, None))
         = (models.zero, Some (ErrorString "no images available"))).
Proof.
  unfold client.GetLatestImage. cbn [snd].
  destruct (sort_Slice_sorts updated_after images updated_after_strict_weak_order)
    as [Hperm Hsorted].
  destruct (some_ready_or_none images) as [(i & Hin & Hr)|Hnone].
  - left.
    destruct (first_ready_latest (sort_Slice updated_after images) models.zero Hsorted)
      as (img & Hf & Hi & Hri & Hmax).
    { exists i. split; [|exact Hr].
      eapply Permutation_in; [symmetry; exact Hperm|exact Hin]. }
    exists img. split; [exact Hf|]. split.
    { eapply Permutation_in; [exact Hperm|exact Hi]. }
    split; [exact Hri|]. intros other Ho. apply Hmax.
    eapply Permutation_in; [symmetry; exact Hperm|exact Ho].
  - right. split; [exact Hnone|]. apply first_ready_none.
    intros i Hi. apply Hnone. eapply Permutation_in; [exact Hperm|exact Hi].
Qed.

(** X24.  The choice of [GetLatestImage] does not depend on the order in
    which the server lists the images, nor on how [sort.Slice] orders
    images updated at the same instant: on two listings of the same images
    it fails on both or succeeds on both, and then the two images returned
    are ready and have the same [UpdatedAt]. *)
Theorem GetLatestImage_ignores_the_order (images images' : list Image) :
  Permutation images images' ->
  let a := snd (client.GetLatestImage sort_Slice (images, None)) in
  let b := snd (client.GetLatestImage sort_Slice (images', None)) in
  snd a = snd b
  /\ Ready (fst a) = Ready (fst b)
  /\ UpdatedAt (fst a) = UpdatedAt (fst b).
Proof.
  intros Hperm. cbv zeta.
  destruct (GetLatestImage_cases images)
    as [(img & -> & Hi & Hr & Hmax)|[Hnone ->]];
    destruct (GetLatestImage_cases images')
      as [(img' & -> & Hi' & Hr' & Hmax')|[Hnone' ->]]; cbn [fst snd].
  - split; [reflexivity|]. split; [congruence|].
    assert (UpdatedAt img <= UpdatedAt img').
    { apply Hmax'; [|exact Hr]. eapply Permutation_in; [exact Hperm|exact Hi]. }
    assert (UpdatedAt img' <= UpdatedAt img).
    { apply Hmax; [|exact Hr']. eapply Permutation_in; [symmetry; exact Hperm|exact Hi']. }
    lia.
  - exfalso. rewrite (Hnone' img) in Hr; [discriminate|].
    eapply Permutation_in; [exact Hperm|exact Hi].
  - exfalso. rewrite (Hnone img') in Hr'; [discriminate|].
    eapply Permutation_in; [symmetry; exact Hperm|exact Hi'].
  - repeat split.
Qed.

Variable Version : string.
Variable NewRequest_error : string -> string -> option error.
Variable Do : Request -> option Response * option error.
Variable UnmarshalManyImages : string -> list Image * option error.
Variable DecodeAPIError : string -> http.APIError * option error.

(** X25.  [GetLatestImage] against a server.  When the GET of [/images] is
    answered with status 200 and the body decodes to a listing, the result
    is that of the listing: the most recently updated ready image, or the
    error "no images available".  When the transport fails, the error is
    the transport's, the image is the zero image and one line, "error: "
    followed by the error's text, is printed. *)
Theorem GetLatestImage_from_the_server (c : Client) :
  NewRequest_error "GET" (url c +:+ "/images") = None ->
  let answer := Do (sent Version c "GET" "/images" "") in
  let run := client_http.GetLatestImage Version NewRequest_error Do
               UnmarshalManyImages DecodeAPIError sort_Slice c in
  (forall resp images,
      answer = (Some resp, None) -> StatusCode resp = 200 ->
      UnmarshalManyImages (Body resp) = (images, None) ->
      exists result,
        run = Returns ([], result)
        /\ ((exists img, result = (img, None)
                         /\ In img images /\ Ready img = true
                         /\ (forall other, In other images -> Ready other = true ->
                                           UpdatedAt other <= UpdatedAt img))
            \/ ((forall i, In i images -> Ready i = false)
                /\ result = (models.zero, Some (ErrorString "no images available")))))
  /\ (forall resp e,
        answer = (resp, Some e) ->
        run = Returns (["error: " +:+ Error e +:+ "
"], (models.zero, Some e))).
Proof.
  intros Hn. cbv zeta. unfold client_http.GetLatestImage, ListImages, get.
  rewrite send_sent, Hn. split.
  - intros resp images -> Hs Hu.
    destruct (Z.eqb_spec (StatusCode resp) StatusOK) as [_|E]; [|contradiction].
    cbn [negb]. rewrite Hu, copy_images_app. cbn [app].
    destruct (GetLatestImage_cases images) as [(img & Hres & H)|[Hnone Hres]].
    + exists (img, None). split.
      * unfold client.GetLatestImage in *. cbn [snd] in Hres. rewrite Hres. reflexivity.
      * left. exists img. auto.
    + eexists. split.
      * unfold client.GetLatestImage in *. cbn [snd] in Hres. rewrite Hres. reflexivity.
      * right. auto.
  - intros resp e ->. destruct resp; reflexivity.
Qed.

End GetLatestImage.

Lemma GetLatestImage_ignores_the_order_witness :
  sorts (@insertion_sort Image)
  /\ Permutation fixtures_more.three_images (rev fixtures_more.three_images)
  /\ UpdatedAt (fst (snd (client.GetLatestImage (@insertion_sort Image)
                            (fixtures_more.three_images, None))))
     = UpdatedAt (fst (snd (client.GetLatestImage (@insertion_sort Image)
                              (rev fixtures_more.three_images, None)))).
Proof.
  split; [exact insertion_sort_sorts|].
  split; [apply Permutation_rev|].
  exact (proj2 (proj2 (GetLatestImage_ignores_the_order
                         (@insertion_sort Image) insertion_sort_sorts
                         fixtures_more.three_images (rev fixtures_more.three_images)
                         (Permutation_rev _)))).
Defined.

Lemma GetLatestImage_from_the_server_witness :
  sorts (@insertion_sort Image)
  /\ exists result,
       client_http.GetLatestImage "1.0.0" fixtures_more.any_request
         fixtures_more.listing_server fixtures_more.listing_decoder
         fixtures_more.no_api_error (@insertion_sort Image) fixtures_more.api_client
       = Returns ([], result).
Proof.
  split; [exact insertion_sort_sorts|].
  destruct (proj1 (GetLatestImage_from_the_server
                     (@insertion_sort Image) insertion_sort_sorts
                     "1.0.0" fixtures_more.any_request fixtures_more.listing_server
                     fixtures_more.listing_decoder fixtures_more.no_api_error
                     fixtures_more.api_client eq_refl)
              {| StatusCode := 200; Body := "three images" |}
              fixtures_more.three_images eq_refl eq_refl eq_refl)
    as (result & Hrun & _).
  exists result. exact Hrun.
Defined.

End client_laws.

(** ** The executor: what it runs, in which order, on which paths *)

Module exec_laws.
Import exec.

Lemma upload_path_inj id id' : upload_path id = upload_path id' -> id = id'.
Proof.
  unfold upload_path. intros H.
  apply (inj (String.app "/var/btrfs/image_uploads")) in H.
  apply (inj (String.app "/")) in H.
  apply (inj pretty) in H. exact H.
Qed.

(** X26.  [CreateBtrfsSubvolume] sets permissions only after [btrfs
    subvolume create] has succeeded, and on the very path it created:
    [/var/btrfs/image_uploads/<id>] with the id in decimal, made a directory
    with mode 0775.  It returns nil exactly when both the command and the
    chmod succeeded; and two different ids never give the same path. *)
Theorem CreateBtrfsSubvolume_creates_then_opens (os : OS) (id : Z) :
  let path := upload_path id in
  let created := Output os "btrfs" ["subvolume"; "create"; path] in
  let t := fst (CreateBtrfsSubvolume os id) in
  (forall p perms,
      In (Chmod p perms) t ->
      snd created = None /\ p = path /\ perms = 2147483648 + 509
      /\ hd_error t = Some (Command "btrfs" ["subvolume"; "create"; path]))
  /\ (snd (CreateBtrfsSubvolume os id) = None
      <-> snd created = None /\ chmod os path (2147483648 + 509) = None)
  /\ (forall e, snd created = Some e ->
        CreateBtrfsSubvolume os id
        = ([Command "btrfs" ["subvolume"; "create"; path]], Some e))
  /\ (forall id', upload_path id = upload_path id' -> id = id').
Proof.
  cbv zeta. unfold CreateBtrfsSubvolume.
  change (Z.lor ModeDir 509) with (2147483648 + 509).
  destruct (Output os "btrfs" ["subvolume"; "create"; upload_path id])
    as [output [e|]]; cbn [fst snd].
  - split; [intros p perms [H|[]]; discriminate H|].
    split; [split; [discriminate|intros [H _]; discriminate H]|].
    split; [intros e' H; injection H as ->; reflexivity|apply upload_path_inj].
  - destruct (chmod os (upload_path id) (2147483648 + 509)) as [e|]; cbn [fst snd].
    + split.
      { intros p perms [H|[H|[H|[]]]]; try discriminate H.
        injection H as <- <-. auto. }
      split; [split; [discriminate|intros [_ H]; discriminate H]|].
      split; [discriminate|apply upload_path_inj].
    + split.
      { intros p perms [H|[H|[H|[H|[]]]]]; try discriminate H.
        injection H as <- <-. auto. }
      split; [split; auto|].
      split; [discriminate|apply upload_path_inj].
Qed.

Lemma baker_args_inj id id' : baker_args id = baker_args id' -> id = id'.
Proof.
  unfold baker_args. intros H. injection H as H. apply (inj pretty) in H. exact H.
Qed.

(** X27.  [FinaliseImage] runs [draupnir-baker] once, on the image whose id
    it was given and on no other, and returns the error of that command
    unchanged.  What the command printed is logged whether it failed or
    not; the line "Finalised image <id>" is logged exactly when it
    succeeded. *)
Theorem FinaliseImage_runs_the_baker (os : OS) (id : Z) :
  let baked := Output os "draupnir-baker" (baker_args id) in
  let t := fst (FinaliseImage os id) in
  snd (FinaliseImage os id) = snd baked
  /\ (forall name args, In (Command name args) t ->
        name = "draupnir-baker" /\ args = baker_args id)
  /\ (forall id', baker_args id = baker_args id' -> id = id')
  /\ In (Print (fst baked)) t
  /\ (In (Printf ("Finalised image " +:+ pretty id)) t <-> snd baked = None).
Proof.
  cbv zeta. unfold FinaliseImage.
  destruct (Output os "draupnir-baker" (baker_args id)) as [output [e|]];
    cbn [fst snd].
  - split; [reflexivity|]. split.
    { intros name args [H|[H|[]]]; [|discriminate H]. injection H as <- <-. auto. }
    split; [apply baker_args_inj|]. split; [right; left; reflexivity|].
    split; [intros [H|[H|[]]]; discriminate H|discriminate].
  - split; [reflexivity|]. split.
    { intros name args [H|[H|[H|[]]]]; try discriminate H. injection H as <- <-. auto. }
    split; [apply baker_args_inj|]. split; [right; left; reflexivity|].
    split; [reflexivity|]. intros _. right. right. left. reflexivity.
Qed.

End exec_laws.
